(** * React-refresh transform of aleph.js ([src/tsc/transform-react-refresh.ts])

    A shallow embedding of [RefreshTransformer] and of the helpers
    [isComponentishName], [isHookName] and [isBuiltinHook], followed by the
    properties of the transform.

    The TypeScript tree is modelled by the node kinds the transformer tests
    for or creates; everything it never inspects is kept as opaque source
    text.  The [WeakMap] keyed by node identity is a [gmap] keyed by the
    position of the node in the parsed module, the [Set] of hook names is a
    [gset string].  A statement of the output is either a node of the parsed
    module, with its index and its position in the text, or a node created
    by the factory, which has neither.

    The functions of the TypeScript library whose results the transformer
    does not determine (the comment scanner, the generator of unique names
    and the flags that the factory gives a declaration list) are the
    operations of the class [TypeScript]; every property holds for every
    library. *)

From Stdlib Require Import String Ascii ZArith Lia.
From stdpp Require Import base option list gmap strings.

#[local] Set Warnings "-clear-no-such-hyp".

Local Open Scope string_scope.
Local Open Scope list_scope.

(** ** JavaScript string operations used by the transformer *)

Module JsString.

(** The line break of [join('\n')]. *)
Definition LF : string := String (ascii_of_nat 10) EmptyString.

(** [s.charAt(i)]: the one-character string at [i], or the empty string
    when [i] is out of range. *)
Definition charAt (i : nat) (s : string) : string :=
  match String.get i s with
  | Some c => String c EmptyString
  | None => EmptyString
  end.

(** [s.startsWith(p)]. *)
Definition startsWith (s p : string) : bool := String.prefix p s.

(** [s.includes(m)]: [m] occurs at some offset of [s]. *)
Fixpoint includes (s m : string) : bool :=
  String.prefix m s ||
  match s with
  | EmptyString => false
  | String _ s' => includes s' m
  end.

(** [s.substring(a, b)] on non-negative arguments: the arguments are
    swapped when [a > b] and clamped to the length of [s]. *)
Definition substring (a b : nat) (s : string) : string :=
  String.substring (Nat.min a b) (Nat.max a b - Nat.min a b) s.

(** [l.join(sep)]. *)
Fixpoint join (sep : string) (l : list string) : string :=
  match l with
  | [] => EmptyString
  | [x] => x
  | x :: rest => x +:+ sep +:+ join sep rest
  end.

(** [a <= b] on strings (code-unit order). *)
Definition le (a b : string) : bool := String.leb a b.

(** Truthiness of a string: only the empty string is falsy. *)
Definition truthy (s : string) : bool :=
  match s with EmptyString => false | _ => true end.

End JsString.

(** ** Syntax tree *)

(** An identifier node.  [autoGenerateId] is the number that the library
    gives the names it generates; parsed identifiers have none. *)
Record Ident := mkIdent { text : string; autoGenerateId : option nat }.

Definition parsedIdent (s : string) : Ident := mkIdent s None.

(** The name of a variable declaration: an identifier, or an object/array
    binding pattern kept as its source text. *)
Inductive BindingName :=
| BindingIdentifier (id : Ident)
| BindingPattern (src : string).

(** The parts of a function-like node that the transformer copies without
    looking at them. *)
Record FunctionHead := mkFunctionHead {
  decorators : list string;
  modifiers : list string;
  asteriskToken : bool;
  typeParameters : list string;
  parameters : list string;
  returnType : option string;
}.

Record ImportSpecifier := mkImportSpecifier {
  propertyName : option Ident;
  specifierName : Ident;
}.

Inductive NamedImportBindings :=
| NamespaceImport (name : Ident)
| NamedImports (elements : list ImportSpecifier).

Record ImportClause := mkImportClause {
  clauseName : option Ident;
  namedBindings : option NamedImportBindings;
}.

(** Expressions and statements.  [src] is the raw source text of a parsed
    node (what [getText()] returns); nodes created by the factory carry the
    empty text.  [StringLiteral], [TrueKeyword], [FalseKeyword],
    [ArrayLiteralExpression] and [ReturnStatement] are the kinds the
    transformer creates; parsed nodes of kinds it never tests for are
    [OtherExpression] and [OtherStatement]. *)
#[local] Unset Elimination Schemes.
Inductive Expression :=
| Identifier (id : Ident)
| PropertyAccessExpression (src : string) (expression : Expression) (name : Ident)
| CallExpression (src : string) (expression : Expression) (arguments : list Expression)
| FunctionExpression (src : string) (fn : FunctionData)
| ArrowFunction (src : string) (fn : FunctionData)
| StringLiteral (value : string)
| TrueKeyword
| FalseKeyword
| ArrayLiteralExpression (elements : list Expression)
| OtherExpression (src : string)
with Statement :=
| FunctionDeclaration (fn : FunctionData)
| VariableStatement (mods : list string) (declarations : list VariableDeclaration) (flags : Z)
| ExpressionStatement (expression : Expression)
| ImportDeclaration (importClause : option ImportClause) (moduleSpecifier : string)
| ReturnStatement (expression : Expression)
| OtherStatement (src : string)
with VariableDeclaration :=
| mkVariableDeclaration (name : BindingName) (exclamationToken : bool)
    (type : option string) (initializer : option Expression)
with FunctionData :=
| mkFunction (head : FunctionHead) (name : option Ident) (body : FunctionBody)
with FunctionBody :=
| NoBody
| Block (statements : list Statement)
| ConciseBody (expression : Expression).
#[local] Set Elimination Schemes.

Definition headOf (fn : FunctionData) : FunctionHead :=
  let 'mkFunction h _ _ := fn in h.
Definition nameOf (fn : FunctionData) : option Ident :=
  let 'mkFunction _ n _ := fn in n.
Definition bodyOf (fn : FunctionData) : FunctionBody :=
  let 'mkFunction _ _ b := fn in b.

(** [node.getText()] of a parsed expression. *)
Definition getText (e : Expression) : string :=
  match e with
  | Identifier id => text id
  | PropertyAccessExpression src _ _ => src
  | CallExpression src _ _ => src
  | FunctionExpression src _ => src
  | ArrowFunction src _ => src
  | OtherExpression src => src
  | StringLiteral _ | TrueKeyword | FalseKeyword | ArrayLiteralExpression _ => EmptyString
  end.

(** [name.getText()] of a declaration name. *)
Definition getNameText (n : BindingName) : string :=
  match n with
  | BindingIdentifier id => text id
  | BindingPattern src => src
  end.

(** ** Name predicates *)

(** [isComponentishName]. *)
Definition isComponentishName (name : string) : bool :=
  let c := JsString.charAt 0 name in
  JsString.le "A" c && JsString.le c "Z".

(** [isHookName]. *)
Definition isHookName (name : string) : bool :=
  let c := JsString.charAt 3 name in
  JsString.startsWith name "use" && JsString.truthy c
  && JsString.le "A" c && JsString.le c "Z".

(** [isBuiltinHook]. *)
Definition builtinHooks : list string :=
  [ "useState"; "React.useState"; "useReducer"; "React.useReducer";
    "useEffect"; "React.useEffect"; "useLayoutEffect"; "React.useLayoutEffect";
    "useMemo"; "React.useMemo"; "useCallback"; "React.useCallback";
    "useRef"; "React.useRef"; "useContext"; "React.useContext";
    "useImperativeMethods"; "React.useImperativeMethods";
    "useDebugValue"; "React.useDebugValue" ].

Definition isBuiltinHook (hookName : string) : bool :=
  existsb (String.eqb hookName) builtinHooks.


(** ** The transformer *)

(** What one hook call contributes: [{ name, key }]. *)
Record HookCall := mkHookCall { callName : string; callKey : string }.

(** The result of [_getHookCallsSignature]: [{ key, customHooks }]. *)
Record HookCallsSignature := mkHookCallsSignature {
  key : string;
  customHooks : list string;
}.

(** An entry of the [hookCalls] map: [{ id, key, customHooks }]. *)
Record SignatureEntry := mkSignatureEntry {
  sigId : Ident;
  sigKey : string;
  sigCustomHooks : list string;
}.

(** [ctx.parent] of a call expression reached by the scan of a body. *)
Inductive ParentNode :=
| ParentVariableDeclaration (d : VariableDeclaration)
| ParentExpressionStatement.

(** Identity of the function-like nodes of a parsed module, as used for the
    keys of the [hookCalls] map: the function declaration that is the
    [i]-th top-level statement, or the initializer of the [j]-th declarator
    of the [i]-th top-level statement. *)
Inductive NodeKey :=
| FunctionKey (i : nat)
| InitializerKey (i j : nat).

#[global] Instance NodeKey_eq_dec : EqDecision NodeKey.
Proof. solve_decision. Defined.

#[global] Instance NodeKey_countable : Countable NodeKey.
Proof.
  refine (inj_countable'
    (fun k => match k with FunctionKey i => inl i | InitializerKey i j => inr (i, j) end)
    (fun x => match x with inl i => FunctionKey i | inr (i, j) => InitializerKey i j end) _).
  intros []; reflexivity.
Defined.

(** A node that [_sign] receives or returns. *)
Inductive Node :=
| StatementNode (s : Statement)
| ExpressionNode (e : Expression).

(** A comment range [{ pos, end }] of [ts.getLeadingCommentRanges]. *)
Record CommentRange := mkCommentRange { rangePos : nat; rangeEnd : nat }.

(** A top-level statement with its [pos] in the source text (-1 for a
    statement created by the factory). *)
Record TopLevel := mkTopLevel { pos : Z; node : Statement }.

(** The source file [#sf]: its text and its top-level statements. *)
Record SourceFile := mkSourceFile {
  sourceText : string;
  statements : list TopLevel;
}.

(** An element of the working array [statements] of [transform]: the
    statement and, for a parsed one, its index in [sf.statements] (its
    identity for the [hookCalls] map). *)
Record Item := mkItem { origin : option nat; top : TopLevel }.

(** Failures of [transform]. [NameUndefined]: [node.name!.text] read on a
    function declaration without a name (a [TypeError]).
    [SignUndefined]: [_sign] returned [undefined] where its result is used. *)
Inductive Failure := NameUndefined | SignUndefined.

Inductive Result (A : Type) :=
| Ok (a : A)
| Throw (e : Failure).
Arguments Ok {A} a.
Arguments Throw {A} e.

Definition bind {A B} (r : Result A) (k : A -> Result B) : Result B :=
  match r with
  | Ok a => k a
  | Throw e => Throw e
  end.

(** [l.map(f)] for a callback that may throw: the first failure aborts. *)
Fixpoint mapR {A B} (f : A -> Result B) (l : list A) : Result (list B) :=
  match l with
  | [] => Ok []
  | x :: l' => bind (f x) (fun y => bind (mapR f l') (fun ys => Ok (y :: ys)))
  end.

(** The same with the index of the element, counted from [j]. *)
Fixpoint mapiR {A B} (f : nat -> A -> Result B) (j : nat) (l : list A) : Result (list B) :=
  match l with
  | [] => Ok []
  | x :: l' => bind (f j x) (fun y => bind (mapiR f (S j) l') (fun ys => Ok (y :: ys)))
  end.

Definition refreshSig : string := "$RefreshSig$".
Definition refreshReg : string := "$RefreshReg$".
Definition refreshResetMarker : string := "@refresh reset".

(** [ts.NodeFlags.Const]. *)
Definition NodeFlags_Const : Z := 2.

(** Factory calls. *)
Definition createIdentifier (s : string) : Expression := Identifier (parsedIdent s).
Definition createCall (e : Expression) (args : list Expression) : Expression :=
  CallExpression EmptyString e args.
Definition createStringLiteralFromNode (name : Ident) : Expression :=
  StringLiteral (text name).

(** *** Hook calls of a function body *)

(** [args[i].getText()], read only when [i < args.length]. *)
Definition argText (i : nat) (args : list Expression) : string :=
  match args !! i with
  | Some a => getText a
  | None => EmptyString
  end.

(** The name of the hook a callee refers to: the identifier, or the
    member name of a property access. *)
Definition calleeName (expression : Expression) : option string :=
  match expression with
  | Identifier id => Some (text id)
  | PropertyAccessExpression _ _ name => Some (text name)
  | _ => None
  end.

(** The key a call starts from: the text of the name of the declaration
    when [ctx.parent] is a variable declaration, empty otherwise. *)
Definition bindingKey (parent : ParentNode) : string :=
  match parent with
  | ParentVariableDeclaration (mkVariableDeclaration n _ _ _) => getNameText n
  | ParentExpressionStatement => EmptyString
  end.

(** The key with the argument that [useState] and [useReducer] reset on. *)
Definition appendArgument (name : string) (args : list Expression) (key : string) : string :=
  if String.eqb name "useState" && Nat.ltb 0 (length args)
  then key +:+ "(" +:+ argText 0 args +:+ ")"
  else if String.eqb name "useReducer" && Nat.ltb 1 (length args)
  then key +:+ "(" +:+ argText 1 args +:+ ")"
  else key.

(** [_getHookCallSignature(ctx)] for the call [expression(args)] whose
    parent node is [parent]. *)
Definition _getHookCallSignature (parent : ParentNode)
    (expression : Expression) (args : list Expression) : option HookCall :=
  match calleeName expression with
  | None => None
  | Some name =>
    if negb (isHookName name) then None
    else
      let key := bindingKey parent in
      let key := appendArgument name args key in
      Some (mkHookCall name key)
  end.

(** The calls pushed for one declarator of a variable statement. *)
Definition hookCallsOfDeclaration (d : VariableDeclaration) : list HookCall :=
  match d with
  | mkVariableDeclaration _ _ _ (Some (CallExpression _ expression args)) =>
    option_list (_getHookCallSignature (ParentVariableDeclaration d) expression args)
  | _ => []
  end.

(** The calls pushed for one direct statement of a body. *)
Definition hookCallsOfStatement (s : Statement) : list HookCall :=
  match s with
  | VariableStatement _ decls _ => flat_map hookCallsOfDeclaration decls
  | ExpressionStatement (CallExpression _ expression args) =>
    option_list (_getHookCallSignature ParentExpressionStatement expression args)
  | _ => []
  end.

(** The array [hookCalls] that [_getHookCallsSignature] fills. *)
Definition bodyHookCalls (fnNode : FunctionData) : list HookCall :=
  match bodyOf fnNode with
  | Block stmts => flat_map hookCallsOfStatement stmts
  | _ => []
  end.

(** One line of the aggregate key. *)
Definition keyLine (call : HookCall) : string :=
  callName call +:+ "{" +:+ callKey call +:+ "}".

(** [_getHookCallsSignature(fnNode)]. *)
Definition _getHookCallsSignature (fnNode : FunctionData) : option HookCallsSignature :=
  let hookCalls := bodyHookCalls fnNode in
  if Nat.eqb (length hookCalls) 0 then None
  else Some (mkHookCallsSignature
    (JsString.join JsString.LF (map keyLine hookCalls))
    (map callName (List.filter (fun call => negb (isBuiltinHook (callName call))) hookCalls))).

(** *** Signing a function *)

(** [sigId()], the statement put first in a signed body. *)
Definition signatureCall (sigId : Ident) : Statement :=
  ExpressionStatement (createCall (Identifier sigId) []).

(** The function literal [function () { return [h1, ..., hn] }]. *)
Definition getCustomHooks (customHooks : list string) : Expression :=
  FunctionExpression EmptyString
    (mkFunction (mkFunctionHead [] [] false [] [] None) None
       (Block [ReturnStatement (ArrayLiteralExpression (map createIdentifier customHooks))])).

(** The statement [_s] built by [_sign]:
    [sigId(fnName, key, forceReset?, getCustomHooks?)]. *)
Definition recordingStatement (fnName : string) (sigId : Ident) (key : string)
    (forceReset : bool) (customHooks : list string) : Statement :=
  ExpressionStatement (createCall (Identifier sigId)
    ([createIdentifier fnName; StringLiteral key] ++
     (if forceReset || Nat.ltb 0 (length customHooks)
      then [if forceReset then TrueKeyword else FalseKeyword] ++
           (if Nat.ltb 0 (length customHooks) then [getCustomHooks customHooks] else [])
      else []))).

(** The body of a function-like node. *)
Definition nodeBody (fnNode : Node) : FunctionBody :=
  match fnNode with
  | StatementNode (FunctionDeclaration fn) => bodyOf fn
  | ExpressionNode (FunctionExpression _ fn) => bodyOf fn
  | ExpressionNode (ArrowFunction _ fn) => bodyOf fn
  | _ => NoBody
  end.

(** The function data with its body replaced by the signed block. *)
Definition signedFunction (sigId : Ident) (fn : FunctionData) (stmts : list Statement) : FunctionData :=
  mkFunction (headOf fn) (nameOf fn) (Block (signatureCall sigId :: stmts)).

(** [_sign(fnNode, fnName, sigId, key, forceReset, customHooks)]: the pair
    of the rewritten function and the recording statement, or [None] for
    [undefined]. *)
Definition _sign (fnNode : Node) (fnName : string) (sigId : Ident) (key : string)
    (forceReset : bool) (customHooks : list string) : option (Node * Statement) :=
  match nodeBody fnNode with
  | Block stmts =>
    let _s := recordingStatement fnName sigId key forceReset customHooks in
    match fnNode with
    | StatementNode (FunctionDeclaration fn) =>
      Some (StatementNode (FunctionDeclaration (signedFunction sigId fn stmts)), _s)
    | ExpressionNode (FunctionExpression _ fn) =>
      Some (ExpressionNode (FunctionExpression EmptyString (signedFunction sigId fn stmts)), _s)
    | ExpressionNode (ArrowFunction _ fn) =>
      Some (ExpressionNode (ArrowFunction EmptyString (signedFunction sigId fn stmts)), _s)
    | _ => None
    end
  | _ => None
  end.

(** *** The TypeScript library *)

(** What the transformer takes from the module [ts] it imports (line 7)
    and does not determine itself:
    - [getLeadingCommentRanges text pos] is the result of
      [ts.getLeadingCommentRanges(text, pos)]: the comment ranges before
      position [pos] of [text], or [None] for [undefined];
    - [createUniqueName n text] is the identifier that
      [f.createUniqueName(text, ts.GeneratedIdentifierFlags.Optimistic)]
      returns when [n] names were minted before it in the run.  The
      library numbers the names it generates with a counter shared by all
      the runs of the process, so the identifier is not a function of the
      arguments of the call;
    - [createdListFlags flags] are the flags of the list that
      [f.createVariableDeclarationList(declarations, flags)] returns: the
      library keeps some of the flags it is given and adds its own. *)
Class TypeScript := mkTypeScript {
  getLeadingCommentRanges : string -> Z -> option (list CommentRange);
  createUniqueName : nat -> string -> Ident;
  createdListFlags : Z -> Z;
}.

(** [f.createVariableStatement(modifiers,
      f.createVariableDeclarationList(declarations, flags))]. *)
Definition createVariableStatement {lib : TypeScript} (mods : list string)
    (declarations : list VariableDeclaration) (flags : Z) : Statement :=
  VariableStatement mods declarations (createdListFlags flags).

(** A statement created by the factory: it is no node of the parsed
    module and its [pos] is -1. *)
Definition synthesized (s : Statement) : Item := mkItem None (mkTopLevel (-1) s).

(** *** The scan of the top-level statements *)

(** The arrays, the map and the set that [transform] declares first. *)
Record ScanState := mkScanState {
  stStatements : list Item;
  components : list Ident;
  signatures : list Ident;
  hookCalls : gmap NodeKey SignatureEntry;
  seenHooks : gset string;
}.

Definition initialState : ScanState := mkScanState [] [] [] ∅ ∅.

Definition pushComponent (name : Ident) (st : ScanState) : ScanState :=
  mkScanState (stStatements st) (components st ++ [name]) (signatures st)
    (hookCalls st) (seenHooks st).

Definition addSeenHook (name : string) (st : ScanState) : ScanState :=
  mkScanState (stStatements st) (components st) (signatures st)
    (hookCalls st) ({[ name ]} ∪ seenHooks st).

Definition pushStatement (it : Item) (st : ScanState) : ScanState :=
  mkScanState (stStatements st ++ [it]) (components st) (signatures st)
    (hookCalls st) (seenHooks st).

Definition when (b : bool) (f : ScanState -> ScanState) (st : ScanState) : ScanState :=
  if b then f st else st.

Definition whenSome {A} (o : option A) (f : A -> ScanState -> ScanState) (st : ScanState) : ScanState :=
  match o with
  | Some a => f a st
  | None => st
  end.

(** The function data of an initializer that is a function expression or
    an arrow function. *)
Definition functionInitializer (initializer : option Expression) : option FunctionData :=
  match initializer with
  | Some (FunctionExpression _ fn) => Some fn
  | Some (ArrowFunction _ fn) => Some fn
  | _ => None
  end.

(** The hook names that an import declaration binds. *)
Definition importedHookNames (importClause : option ImportClause) : list string :=
  match importClause with
  | None => []
  | Some c =>
    (match clauseName c with
     | Some name => if isHookName (text name) then [text name] else []
     | None => []
     end) ++
    (match namedBindings c with
     | Some (NamedImports elements) =>
       List.filter isHookName (map (fun sp => text (specifierName sp)) elements)
     | _ => []
     end)
  end.

Section Transform.

Context {lib : TypeScript}.

(** [const id = f.createUniqueName('_s', ...); signatures.push(id);
    hookCalls.set(node, { id, ...hookCallsSignature })] for the node of
    identity [k].  Every name minted in a run is pushed on [signatures],
    so the call is made after [length signatures] earlier ones. *)
Definition recordSignature (k : NodeKey) (sig : HookCallsSignature) (st : ScanState) : ScanState :=
  let id := createUniqueName (length (signatures st)) "_s" in
  mkScanState (stStatements st) (components st) (signatures st ++ [id])
    (<[ k := mkSignatureEntry id (key sig) (customHooks sig) ]> (hookCalls st))
    (seenHooks st).

(** The branch for a function declaration (the [i]-th statement). *)
Definition scanFunctionDeclaration (i : nat) (fn : FunctionData) (st : ScanState) : ScanState :=
  let st := whenSome (nameOf fn) (fun name => when (isComponentishName (text name)) (pushComponent name)) st in
  let st := whenSome (nameOf fn) (fun name => when (isHookName (text name)) (addSeenHook (text name))) st in
  whenSome (_getHookCallsSignature fn) (recordSignature (FunctionKey i)) st.

(** The callback for the [j]-th declarator of the [i]-th statement. *)
Definition scanDeclaration (i j : nat) (d : VariableDeclaration) (st : ScanState) : ScanState :=
  match d with
  | mkVariableDeclaration (BindingIdentifier name) _ _ initializer =>
    match functionInitializer initializer with
    | Some fn =>
      let hookCallsSignature := _getHookCallsSignature fn in
      let st := when (isComponentishName (text name)) (pushComponent name) st in
      let st := when (isHookName (text name)) (addSeenHook (text name)) st in
      whenSome hookCallsSignature (recordSignature (InitializerKey i j)) st
    | None => st
    end
  | _ => st
  end.

Fixpoint scanDeclarations (i j : nat) (ds : list VariableDeclaration) (st : ScanState) : ScanState :=
  match ds with
  | [] => st
  | d :: ds' => scanDeclarations i (S j) ds' (scanDeclaration i j d st)
  end.

(** The callback of [sf.statements.forEach] for the [i]-th statement. *)
Definition scanStatement (i : nat) (t : TopLevel) (st : ScanState) : ScanState :=
  let st :=
    match node t with
    | FunctionDeclaration fn => scanFunctionDeclaration i fn st
    | VariableStatement _ decls _ => scanDeclarations i 0 decls st
    | ImportDeclaration importClause _ =>
      fold_left (fun st name => addSeenHook name st) (importedHookNames importClause) st
    | _ => st
    end in
  pushStatement (mkItem (Some i) t) st.

Fixpoint scanStatements (i : nat) (ts : list TopLevel) (st : ScanState) : ScanState :=
  match ts with
  | [] => st
  | t :: ts' => scanStatements (S i) ts' (scanStatement i t st)
  end.

Definition scan (sf : SourceFile) : ScanState :=
  scanStatements 0 (statements sf) initialState.

(** *** The rewrite of the statements *)

(** [!!ts.getLeadingCommentRanges(text, pos)?.filter(...).length]. *)
Definition forceResetComment (srcText : string) (pos : Z) : bool :=
  match getLeadingCommentRanges srcText pos with
  | None => false
  | Some ranges =>
    negb (Nat.eqb (length (List.filter
      (fun r => JsString.includes (JsString.substring (rangePos r) (rangeEnd r) srcText) refreshResetMarker)
      ranges)) 0)
  end.

(** [hookCalls.get(node)] for a node of the working array: a statement
    created by the factory is in no map. *)
Definition lookupSignature (st : ScanState) (o : option nat) (k : nat -> NodeKey) : option SignatureEntry :=
  match o with
  | Some i => hookCalls st !! k i
  | None => None
  end.

(** [customHooks.filter(name => seenHooks.has(name))]. *)
Definition resolveCustomHooks (st : ScanState) (customHooks : list string) : list string :=
  List.filter (fun name => bool_decide (name ∈ seenHooks st)) customHooks.

(** The argument [forceResetComment || _customHooks.length !== customHooks.length]. *)
Definition forceResetOf (comment : bool) (_customHooks customHooks : list string) : bool :=
  comment || negb (Nat.eqb (length _customHooks) (length customHooks)).

(** The callback of [declarations.map] for the [j]-th declarator: the
    declarator of the new statement and what it pushes on [_ss]. *)
Definition rewriteDeclaration (st : ScanState) (comment : bool) (o : option nat)
    (j : nat) (decl : VariableDeclaration) : Result (VariableDeclaration * list Statement) :=
  match decl with
  | mkVariableDeclaration (BindingIdentifier name) exclamationToken type (Some initializer) =>
    match functionInitializer (Some initializer),
          lookupSignature st o (fun i => InitializerKey i j) with
    | Some _, Some entry =>
      let _customHooks := resolveCustomHooks st (sigCustomHooks entry) in
      match _sign (ExpressionNode initializer) (text name) (sigId entry) (sigKey entry)
              (forceResetOf comment _customHooks (sigCustomHooks entry)) _customHooks with
      | Some (ExpressionNode _initializer, _s) =>
        Ok (mkVariableDeclaration (BindingIdentifier name) exclamationToken type (Some _initializer), [_s])
      | _ => Throw SignUndefined
      end
    | _, _ => Ok (decl, [])
    end
  | _ => Ok (decl, [])
  end.

(** The callback of [statements.map]: the statements that replace one
    element of the working array.  A node that the callback returns as it
    is stays the element [it]; what [_sign] and the factory build are new
    nodes.  A variable statement is built anew whether or not one of its
    declarators is signed. *)
Definition rewriteStatement (srcText : string) (st : ScanState) (it : Item) : Result (list Item) :=
  match node (top it) with
  | FunctionDeclaration fn =>
    match lookupSignature st (origin it) FunctionKey with
    | Some entry =>
      let _customHooks := resolveCustomHooks st (sigCustomHooks entry) in
      let comment := forceResetComment srcText (pos (top it)) in
      match nameOf fn with
      | None => Throw NameUndefined
      | Some name =>
        match _sign (StatementNode (node (top it))) (text name) (sigId entry) (sigKey entry)
                (forceResetOf comment _customHooks (sigCustomHooks entry)) _customHooks with
        | Some (StatementNode fn', _s) => Ok [synthesized fn'; synthesized _s]
        | _ => Throw SignUndefined
        end
      end
    | None => Ok [it]
    end
  | VariableStatement mods decls flags =>
    let comment := forceResetComment srcText (pos (top it)) in
    bind (mapiR (rewriteDeclaration st comment (origin it)) 0 decls) (fun rs =>
      let vs := createVariableStatement mods (map fst rs) flags in
      let _ss := concat (map snd rs) in
      Ok (synthesized vs :: map synthesized _ss))
  | _ => Ok [it]
  end.

(** [$RefreshReg$(name, "name")]. *)
Definition registrationCall (name : Ident) : Statement :=
  ExpressionStatement (createCall (createIdentifier refreshReg)
    [Identifier name; createStringLiteralFromNode name]).

(** [const _s1 = $RefreshSig$(), ..., _sn = $RefreshSig$()], as the
    factory creates it at lines 96-106. *)
Definition signatureDeclaration (signatures : list Ident) : Statement :=
  createVariableStatement []
    (map (fun id => mkVariableDeclaration (BindingIdentifier id) false None
                      (Some (createCall (createIdentifier refreshSig) [])))
         signatures)
    NodeFlags_Const.

(** The working array once the registration calls are pushed and the
    signature declaration is put in front. *)
Definition workingStatements (st : ScanState) : list Item :=
  let statements :=
    (stStatements st ++ map (fun name => synthesized (registrationCall name)) (components st))%list in
  if Nat.ltb 0 (length (signatures st))
  then synthesized (signatureDeclaration (signatures st)) :: statements
  else statements.

(** [transform()]: the statements of the updated source file. *)
Definition transform (sf : SourceFile) : Result (list Item) :=
  let st := scan sf in
  bind (mapR (rewriteStatement (sourceText sf) st) (workingStatements st)) (fun blocks =>
    Ok (concat blocks)).

End Transform.

(** ** The end-to-end example of the specification *)

Module Example.

Definition noHead : FunctionHead := mkFunctionHead [] [] false [] [] None.

Definition counterText : string :=
  "function Counter(){ const [n,setN]=useState(0); useMyHook(); return null }".

Definition useMyHookText : string := "function useMyHook(){ return 1 }".

(** [function Counter(){ const [n,setN]=useState(0); useMyHook(); return null }] *)
Definition counterBody : list Statement :=
  [ VariableStatement []
      [ mkVariableDeclaration (BindingPattern "[n,setN]") false None
          (Some (CallExpression "useState(0)" (createIdentifier "useState") [OtherExpression "0"])) ]
      NodeFlags_Const;
    ExpressionStatement (CallExpression "useMyHook()" (createIdentifier "useMyHook") []);
    ReturnStatement (OtherExpression "null") ].

Definition counter : Statement :=
  FunctionDeclaration (mkFunction noHead (Some (parsedIdent "Counter")) (Block counterBody)).

(** [function useMyHook(){ return 1 }] *)
Definition useMyHook : Statement :=
  FunctionDeclaration (mkFunction noHead (Some (parsedIdent "useMyHook"))
    (Block [ReturnStatement (OtherExpression "1")])).

Definition module : SourceFile :=
  mkSourceFile (counterText +:+ JsString.LF +:+ useMyHookText)
    [ mkTopLevel 0 counter;
      mkTopLevel (Z.of_nat (String.length counterText)) useMyHook ].

(** The key of [Counter]. *)
Definition counterKey : string :=
  "useState{[n,setN](0)}" +:+ JsString.LF +:+ "useMyHook{}".

Definition counterSignature : HookCallsSignature :=
  mkHookCallsSignature counterKey ["useMyHook"].

(** The module made of [Counter] alone: [useMyHook] is declared nowhere. *)
Definition counterAlone : SourceFile :=
  mkSourceFile counterText [mkTopLevel 0 counter].

Definition counterFunction : FunctionData :=
  mkFunction noHead (Some (parsedIdent "Counter")) (Block counterBody).

(** [/* @refresh reset */] in front of [Counter] and [useMyHook]. *)
Definition resetComment : string := "/* @refresh reset */".

Definition moduleWithReset : SourceFile :=
  mkSourceFile (resetComment +:+ counterText +:+ JsString.LF +:+ useMyHookText)
    [ mkTopLevel 0 counter;
      mkTopLevel (Z.of_nat (String.length (resetComment +:+ counterText))) useMyHook ].

(** The comment ranges of [moduleWithReset]: the comment at position 0. *)
Definition resetRanges : string -> Z -> option (list CommentRange) :=
  fun _ p => if Z.eqb p 0 then Some [mkCommentRange 0 (String.length resetComment)] else None.

(** [const a = useA(), b = useB()] as the body of a function [Pair]. *)
Definition declaratorA : VariableDeclaration :=
  mkVariableDeclaration (BindingIdentifier (parsedIdent "a")) false None
    (Some (CallExpression "useA()" (createIdentifier "useA") [])).

Definition declaratorB : VariableDeclaration :=
  mkVariableDeclaration (BindingIdentifier (parsedIdent "b")) false None
    (Some (CallExpression "useB()" (createIdentifier "useB") [])).

Definition twoDeclarators : Statement :=
  VariableStatement [] [declaratorA; declaratorB] NodeFlags_Const.

Definition pairFunction : FunctionData :=
  mkFunction noHead (Some (parsedIdent "Pair")) (Block [twoDeclarators]).

(** [useEffect(f)] and [useEffect(g)], in the two orders. *)
Definition effectF : Statement :=
  ExpressionStatement (CallExpression "useEffect(f)" (createIdentifier "useEffect")
    [OtherExpression "f"]).

Definition effectG : Statement :=
  ExpressionStatement (CallExpression "useEffect(g)" (createIdentifier "useEffect")
    [OtherExpression "g"]).

Definition effectsFG : FunctionData :=
  mkFunction noHead (Some (parsedIdent "Effects")) (Block [effectF; effectG]).

Definition effectsGF : FunctionData :=
  mkFunction noHead (Some (parsedIdent "Effects")) (Block [effectG; effectF]).

(** [Counter] with its two hook statements in the other order. *)
Definition counterSwapped : FunctionData :=
  mkFunction noHead (Some (parsedIdent "Counter"))
    (Block [ ExpressionStatement (CallExpression "useMyHook()" (createIdentifier "useMyHook") []);
             VariableStatement []
               [ mkVariableDeclaration (BindingPattern "[n,setN]") false None
                   (Some (CallExpression "useState(0)" (createIdentifier "useState")
                            [OtherExpression "0"])) ]
               NodeFlags_Const;
             ReturnStatement (OtherExpression "null") ]).

(** [Counter] with the initial state [1] instead of [0]. *)
Definition counterFromOne : FunctionData :=
  mkFunction noHead (Some (parsedIdent "Counter"))
    (Block [ VariableStatement []
               [ mkVariableDeclaration (BindingPattern "[n,setN]") false None
                   (Some (CallExpression "useState(1)" (createIdentifier "useState")
                            [OtherExpression "1"])) ]
               NodeFlags_Const;
             ExpressionStatement (CallExpression "useMyHook()" (createIdentifier "useMyHook") []);
             ReturnStatement (OtherExpression "null") ]).

(** [export default function(){ ... }] with the body of [Counter]. *)
Definition anonymousFunction : FunctionData :=
  mkFunction (mkFunctionHead [] ["export"; "default"] false [] [] None) None (Block counterBody).

Definition anonymousModule : SourceFile :=
  mkSourceFile "export default function(){ const [n,setN]=useState(0); useMyHook(); return null }"
    [mkTopLevel 0 (FunctionDeclaration anonymousFunction)].

(** [function useMyHook(){ return 1 }] and [const x = 1]: no hook call. *)
Definition constX : Statement :=
  VariableStatement []
    [mkVariableDeclaration (BindingIdentifier (parsedIdent "x")) false None
       (Some (OtherExpression "1"))]
    NodeFlags_Const.

Definition plainModule : SourceFile :=
  mkSourceFile (useMyHookText +:+ JsString.LF +:+ "const x = 1")
    [ mkTopLevel 0 useMyHook;
      mkTopLevel (Z.of_nat (String.length useMyHookText)) constX ].

(** [const App = () => { const [n,setN]=useState(0); return null }, x = 1]. *)
Definition appBody : list Statement :=
  [ VariableStatement []
      [ mkVariableDeclaration (BindingPattern "[n,setN]") false None
          (Some (CallExpression "useState(0)" (createIdentifier "useState") [OtherExpression "0"])) ]
      NodeFlags_Const;
    ReturnStatement (OtherExpression "null") ].

Definition appFunction : FunctionData := mkFunction noHead None (Block appBody).

Definition appArrow : Expression :=
  ArrowFunction "() => { const [n,setN]=useState(0); return null }" appFunction.

Definition appDeclarator : VariableDeclaration :=
  mkVariableDeclaration (BindingIdentifier (parsedIdent "App")) false None (Some appArrow).

Definition xDeclarator : VariableDeclaration :=
  mkVariableDeclaration (BindingIdentifier (parsedIdent "x")) false None
    (Some (OtherExpression "1")).

Definition appStatement : Statement :=
  VariableStatement [] [appDeclarator; xDeclarator] NodeFlags_Const.

Definition appModule : SourceFile :=
  mkSourceFile "const App = () => { const [n,setN]=useState(0); return null }, x = 1"
    [mkTopLevel 0 appStatement].

Definition appSignature : HookCallsSignature :=
  mkHookCallsSignature "useState{[n,setN](0)}" [].

(** [const useMyHook = makeHook()]: the declarator binds a hook name to a
    call, which the scan does not look at. *)
Definition useMyHookByCall : Statement :=
  VariableStatement []
    [mkVariableDeclaration (BindingIdentifier (parsedIdent "useMyHook")) false None
       (Some (CallExpression "makeHook()" (createIdentifier "makeHook") []))]
    NodeFlags_Const.

(** Two call sites of [useA] whose lines differ, the second being the
    first, a line break and the first again.  The name of the declarator
    is a text that no binding pattern of the language has: the tree keeps
    the names of the declarators of a body as texts and does not ask more
    of them. *)
Definition callA : Statement :=
  ExpressionStatement (CallExpression "useA()" (createIdentifier "useA") []).

Definition callATwice : Statement :=
  VariableStatement []
    [ mkVariableDeclaration (BindingPattern ("}" +:+ JsString.LF +:+ "useA{")) false None
        (Some (CallExpression "useA()" (createIdentifier "useA") [])) ]
    NodeFlags_Const.

(** [Counter] followed by [const useMyHook = makeHook()]. *)
Definition byCallModule : SourceFile :=
  mkSourceFile (counterText +:+ JsString.LF +:+ "const useMyHook = makeHook()")
    [ mkTopLevel 0 counter;
      mkTopLevel (Z.of_nat (String.length counterText)) useMyHookByCall ].

(** A library for the examples: a text without comments, a process that
    has generated no name before the run, and the factory of the
    TypeScript releases in which a created list keeps the flags [Let] and
    [Const] (1 and 2) of the flags it is given and is marked as
    synthesized (8). *)
Definition library : TypeScript :=
  mkTypeScript (fun _ _ => None) (fun n s => mkIdent s (Some n))
    (fun flags => Z.lor 8 (Z.land flags 3)).

(** The same library for [moduleWithReset]. *)
Definition resetLibrary : TypeScript :=
  mkTypeScript resetRanges (fun n s => mkIdent s (Some n))
    (fun flags => Z.lor 8 (Z.land flags 3)).

(** The library [lib] on a text in which no statement has a comment in
    front of it. *)
Definition withoutComments (lib : TypeScript) : TypeScript :=
  mkTypeScript (fun _ _ => None) (@createUniqueName lib) (@createdListFlags lib).

Section Outputs.

Context {lib : TypeScript}.

(** The unique name minted for the first signature of a module. *)
Definition s0 : Ident := createUniqueName 0 "_s".

(** The signature declaration of a module with one signed function, as
    the output has it: created at lines 96-106 and created again from its
    parts at lines 120-150. *)
Definition signatureStatement : Statement :=
  VariableStatement []
    [ mkVariableDeclaration (BindingIdentifier s0) false None
        (Some (CallExpression "" (Identifier (parsedIdent "$RefreshSig$")) [])) ]
    (createdListFlags (createdListFlags NodeFlags_Const)).

(** [Counter] after the rewrite. *)
Definition counterSigned : Statement :=
  FunctionDeclaration (mkFunction noHead (Some (parsedIdent "Counter"))
    (Block (signatureCall s0 :: counterBody))).

(** The statements of the transformed module: [useMyHook] is the parsed
    node, the other statements are new. *)
Definition output : list Item :=
  [ synthesized signatureStatement;
    synthesized counterSigned;
    synthesized (recordingStatement "Counter" s0 counterKey false ["useMyHook"]);
    mkItem (Some 1) (mkTopLevel (Z.of_nat (String.length counterText)) useMyHook);
    synthesized (registrationCall (parsedIdent "Counter")) ].

(** The output for [counterAlone]. *)
Definition outputAlone : list Item :=
  [ synthesized signatureStatement;
    synthesized counterSigned;
    synthesized (recordingStatement "Counter" s0 counterKey true []);
    synthesized (registrationCall (parsedIdent "Counter")) ].

(** The output for [moduleWithReset]. *)
Definition outputWithReset : list Item :=
  [ synthesized signatureStatement;
    synthesized counterSigned;
    synthesized (recordingStatement "Counter" s0 counterKey true ["useMyHook"]);
    mkItem (Some 1)
      (mkTopLevel (Z.of_nat (String.length (resetComment +:+ counterText))) useMyHook);
    synthesized (registrationCall (parsedIdent "Counter")) ].

(** The output for [appModule]. *)
Definition appOutput : list Item :=
  [ synthesized signatureStatement;
    synthesized (VariableStatement []
      [ mkVariableDeclaration (BindingIdentifier (parsedIdent "App")) false None
          (Some (ArrowFunction "" (mkFunction noHead None (Block (signatureCall s0 :: appBody)))));
        xDeclarator ]
      (createdListFlags NodeFlags_Const));
    synthesized (recordingStatement "App" s0 "useState{[n,setN](0)}" false []);
    synthesized (registrationCall (parsedIdent "App")) ].

(** The output for [plainModule]: the function declaration is the parsed
    node, the variable statement is a new one. *)
Definition plainOutput : list Item :=
  [ mkItem (Some 0) (mkTopLevel 0 useMyHook);
    synthesized (VariableStatement [] [xDeclarator] (createdListFlags NodeFlags_Const)) ].

End Outputs.

End Example.

(** ** What the scan collects, statement by statement *)

(** The declarators that the scan and the rewrite look at: a plain
    identifier bound to a function expression or an arrow function. *)
Definition declaredFunction (d : VariableDeclaration) : option (Ident * FunctionData) :=
  match d with
  | mkVariableDeclaration (BindingIdentifier name) _ _ initializer =>
    match functionInitializer initializer with
    | Some fn => Some (name, fn)
    | None => None
    end
  | _ => None
  end.

Definition componentIf (name : Ident) : list Ident :=
  if isComponentishName (text name) then [name] else [].

Definition hookNameIf (name : Ident) : list string :=
  if isHookName (text name) then [text name] else [].

(** The identifiers one declarator pushes on [components]. *)
Definition componentsOfDeclaration (d : VariableDeclaration) : list Ident :=
  match declaredFunction d with
  | Some (name, _) => componentIf name
  | None => []
  end.

(** The identifiers one top-level statement pushes on [components]. *)
Definition componentsOfStatement (s : Statement) : list Ident :=
  match s with
  | FunctionDeclaration fn =>
    match nameOf fn with
    | Some name => componentIf name
    | None => []
    end
  | VariableStatement _ decls _ => flat_map componentsOfDeclaration decls
  | _ => []
  end.

(** The names one declarator adds to [seenHooks]. *)
Definition hookNamesOfDeclaration (d : VariableDeclaration) : list string :=
  match declaredFunction d with
  | Some (name, _) => hookNameIf name
  | None => []
  end.

(** The names one top-level statement adds to [seenHooks]. *)
Definition hookNamesOfStatement (s : Statement) : list string :=
  match s with
  | FunctionDeclaration fn =>
    match nameOf fn with
    | Some name => hookNameIf name
    | None => []
    end
  | VariableStatement _ decls _ => flat_map hookNamesOfDeclaration decls
  | ImportDeclaration importClause _ => importedHookNames importClause
  | _ => []
  end.

(** The signature the scan computes for the function of a declarator. *)
Definition signatureOfDeclaration (d : VariableDeclaration) : option HookCallsSignature :=
  match declaredFunction d with
  | Some (_, fn) => _getHookCallsSignature fn
  | None => None
  end.

(** The index of the top-level statement a node belongs to. *)
Definition keyIndex (k : NodeKey) : nat :=
  match k with
  | FunctionKey i => i
  | InitializerKey i _ => i
  end.

(** The signature the scan computes for the node of identity [k] when [s]
    is the statement of index [keyIndex k]. *)
Definition signatureIn (s : Statement) (k : NodeKey) : option HookCallsSignature :=
  match k, s with
  | FunctionKey _, FunctionDeclaration fn => _getHookCallsSignature fn
  | InitializerKey _ j, VariableStatement _ decls _ =>
    match decls !! j with
    | Some d => signatureOfDeclaration d
    | None => None
    end
  | _, _ => None
  end.

(** The signature the scan computes for the node of identity [k]. *)
Definition signatureAt (ts : list TopLevel) (k : NodeKey) : option HookCallsSignature :=
  match ts !! keyIndex k with
  | Some t => signatureIn (node t) k
  | None => None
  end.

(** The signatures one top-level statement gives rise to, in order. *)
Definition signaturesOfStatement (s : Statement) : list HookCallsSignature :=
  match s with
  | FunctionDeclaration fn => option_list (_getHookCallsSignature fn)
  | VariableStatement _ decls _ =>
    flat_map (fun d => option_list (signatureOfDeclaration d)) decls
  | _ => []
  end.

(** The [{ key, customHooks }] part of a map entry. *)
Definition signatureOfEntry (e : SignatureEntry) : HookCallsSignature :=
  mkHookCallsSignature (sigKey e) (sigCustomHooks e).

(** The parsed statements as elements of the working array. *)
Fixpoint itemsFrom (i : nat) (ts : list TopLevel) : list Item :=
  match ts with
  | [] => []
  | t :: ts' => mkItem (Some i) t :: itemsFrom (S i) ts'
  end.

(** What lines 120-150 make of a statement none of whose declarators is
    signed: a variable statement is created again from its modifiers, its
    declarators and the flags of its list; any other statement is left. *)
Definition recreated {lib : TypeScript} (s : Statement) : Statement :=
  match s with
  | VariableStatement mods decls flags => createVariableStatement mods decls flags
  | _ => s
  end.

(** The statement put in front of the output: the signature declaration,
    which the rewrite meets as the first element of the working array and
    creates again, being a variable statement. *)
Definition signaturePrefix {lib : TypeScript} (st : ScanState) : list Item :=
  if Nat.ltb 0 (length (signatures st))
  then [synthesized (recreated (signatureDeclaration (signatures st)))]
  else [].

(** What the output has for the [i]-th statement of a module without
    signed function. *)
Definition unsignedItem {lib : TypeScript} (i : nat) (t : TopLevel) : Item :=
  match node t with
  | VariableStatement _ _ _ => synthesized (recreated (node t))
  | _ => mkItem (Some i) t
  end.

Definition isVariableStatement (s : Statement) : bool :=
  match s with
  | VariableStatement _ _ _ => true
  | _ => false
  end.

Definition orElse {A} (o o' : option A) : option A :=
  match o with
  | Some a => Some a
  | None => o'
  end.

(** [l.map((x, j) => f(j, x))] with indices counted from [j]. *)
Fixpoint mapi {A B} (f : nat -> A -> B) (j : nat) (l : list A) : list B :=
  match l with
  | [] => []
  | x :: l' => f j x :: mapi f (S j) l'
  end.

(** The initializer of a signed declarator after the rewrite. *)
Definition signedInitializer (sigId : Ident) (initializer : Expression)
    (stmts : list Statement) : Expression :=
  match initializer with
  | FunctionExpression _ fn => FunctionExpression EmptyString (signedFunction sigId fn stmts)
  | ArrowFunction _ fn => ArrowFunction EmptyString (signedFunction sigId fn stmts)
  | e => e
  end.

(** The recording statement emitted for a function named [name] whose map
    entry is [entry], when [comment] is the result of the comment test. *)
Definition recordingOf (st : ScanState) (comment : bool) (name : Ident)
    (entry : SignatureEntry) : Statement :=
  let _customHooks := resolveCustomHooks st (sigCustomHooks entry) in
  recordingStatement (text name) (sigId entry) (sigKey entry)
    (forceResetOf comment _customHooks (sigCustomHooks entry)) _customHooks.

(** What the rewrite makes of the [j]-th declarator of the [i]-th
    statement: the declarator of the new statement and the recording
    statements it contributes. *)
Definition rewrittenDeclaration (st : ScanState) (comment : bool) (i j : nat)
    (d : VariableDeclaration) : VariableDeclaration * list Statement :=
  match d with
  | mkVariableDeclaration (BindingIdentifier name) ex ty (Some initializer) =>
    match functionInitializer (Some initializer), hookCalls st !! InitializerKey i j with
    | Some fn, Some entry =>
      match bodyOf fn with
      | Block stmts =>
        (mkVariableDeclaration (BindingIdentifier name) ex ty
           (Some (signedInitializer (sigId entry) initializer stmts)),
         [recordingOf st comment name entry])
      | _ => (d, [])
      end
    | _, _ => (d, [])
    end
  | _ => (d, [])
  end.

(** A function that the scan signs: the node of identity [k] is a
    function named [name], defined by a top-level statement at position
    [p], and [_getHookCallsSignature] gives it the signature [sig]. *)
Inductive SignedFunction (sf : SourceFile) : NodeKey -> Ident -> Z -> HookCallsSignature -> Prop :=
| SignedDeclaration i t fn name sig :
    statements sf !! i = Some t ->
    node t = FunctionDeclaration fn ->
    nameOf fn = Some name ->
    _getHookCallsSignature fn = Some sig ->
    SignedFunction sf (FunctionKey i) name (pos t) sig
| SignedInitializer i j t mods decls flags d name fn sig :
    statements sf !! i = Some t ->
    node t = VariableStatement mods decls flags ->
    decls !! j = Some d ->
    declaredFunction d = Some (name, fn) ->
    _getHookCallsSignature fn = Some sig ->
    SignedFunction sf (InitializerKey i j) name (pos t) sig.

(** The functions with a signature that a declarator and a top-level
    statement define, with their names, in the order of the declarators. *)
Definition signedOfDeclaration (d : VariableDeclaration) : list (Ident * HookCallsSignature) :=
  match declaredFunction d with
  | Some (name, fn) =>
    match _getHookCallsSignature fn with
    | Some sig => [(name, sig)]
    | None => []
    end
  | None => []
  end.

Definition signedFunctionsOf (s : Statement) : list (Ident * HookCallsSignature) :=
  match s with
  | FunctionDeclaration fn =>
    match nameOf fn, _getHookCallsSignature fn with
    | Some name, Some sig => [(name, sig)]
    | _, _ => []
    end
  | VariableStatement _ decls _ => flat_map signedOfDeclaration decls
  | _ => []
  end.

(** [rec] is the recording statement of the function [f], defined by a
    top-level statement at position [p] of [sf]: the call of some
    identifier on the name of the function, its key, the forceReset
    argument and the custom hooks found in the hook-name set. *)
Definition RecordingFor {lib : TypeScript} (sf : SourceFile) (p : Z)
    (f : Ident * HookCallsSignature) (rec : Statement) : Prop :=
  exists sigId,
    rec = recordingStatement (text (fst f)) sigId (key (snd f))
            (forceResetOf (forceResetComment (sourceText sf) p)
               (resolveCustomHooks (scan sf) (customHooks (snd f))) (customHooks (snd f)))
            (resolveCustomHooks (scan sf) (customHooks (snd f))).

(** [d'] is the declarator [d] as the new variable statement has it: [d]
    itself when its initializer has no signature, otherwise a declarator
    of the same name, exclamation token and type whose initializer is the
    function with the call of a signature identifier put first. *)
Definition RewrittenDeclarator (d d' : VariableDeclaration) : Prop :=
  match signatureOfDeclaration d with
  | None => d' = d
  | Some _ =>
    exists name ex ty init fn stmts sigId,
      d = mkVariableDeclaration (BindingIdentifier name) ex ty (Some init) /\
      functionInitializer (Some init) = Some fn /\
      bodyOf fn = Block stmts /\
      d' = mkVariableDeclaration (BindingIdentifier name) ex ty
             (Some (signedInitializer sigId init stmts))
  end.

(** [head] is what the output has in the place of [t], the [i]-th
    statement of the module: the node [t] itself, unless [t] is a function
    declaration with a signature, replaced by a new declaration whose
    body starts with the call of a signature identifier, or a variable
    statement, replaced by a new statement made of its modifiers, its
    declarators as the rewrite leaves them, and the flags of its list. *)
Definition HeadOfBlock {lib : TypeScript} (i : nat) (t : TopLevel) (head : Item) : Prop :=
  match node t with
  | FunctionDeclaration fn =>
    match _getHookCallsSignature fn with
    | None => head = mkItem (Some i) t
    | Some _ =>
      exists sigId stmts,
        bodyOf fn = Block stmts /\
        head = synthesized (FunctionDeclaration
                 (mkFunction (headOf fn) (nameOf fn) (Block (signatureCall sigId :: stmts))))
    end
  | VariableStatement mods decls flags =>
    exists decls',
      Forall2 RewrittenDeclarator decls decls' /\
      head = synthesized (createVariableStatement mods decls' flags)
  | _ => head = mkItem (Some i) t
  end.

(** A function declaration without a name whose body has hook calls: the
    rewrite reads [node.name!.text] on it. *)
Definition anonymousSigned (s : Statement) : Prop :=
  exists fn sig,
    s = FunctionDeclaration fn /\ nameOf fn = None /\ _getHookCallsSignature fn = Some sig.

(** A statement of the form [sigId(fnName, key, ...)] built by [_sign]. *)
Definition IsRecording (s : Statement) : Prop :=
  exists fnName sigId key forceReset customHooks,
    s = recordingStatement fnName sigId key forceReset customHooks.

(** The first character is an uppercase ASCII letter. *)
Definition startsWithUppercase (s : string) : Prop :=
  exists c rest, s = String c rest /\ (65 <= nat_of_ascii c <= 90)%nat.

(** *** Notions used for the keys *)

(** The part of a key after the binding key: the parenthesised argument of
    a [useState] or [useReducer] call, or nothing. *)
Definition argKeyFragment (name : string) (args : list Expression) : string :=
  appendArgument name args EmptyString.

(** The index of the argument that enters the key: the first argument of
    [useState], the second of [useReducer]. *)
Definition seedIndex (name : string) : option nat :=
  if String.eqb name "useState" then Some 0
  else if String.eqb name "useReducer" then Some 1
  else None.

(** [s'] is [s] with the source text of the seed argument of one direct
    [useState] or [useReducer] call changed: the call is an expression
    statement, or the initializer of a declarator of a variable
    statement; the argument [a] at the seed index is replaced by an
    argument [a'] of another text, and nothing else changes but the text
    of the call itself. *)
Inductive EditsSeedArgument : Statement -> Statement -> Prop :=
| EditsExpressionStatement src src' e name n args a a' :
    calleeName e = Some name ->
    seedIndex name = Some n ->
    args !! n = Some a ->
    getText a <> getText a' ->
    EditsSeedArgument
      (ExpressionStatement (CallExpression src e args))
      (ExpressionStatement (CallExpression src' e (<[n := a']> args)))
| EditsDeclarator mods flags before after nm ex ty src src' e name n args a a' :
    calleeName e = Some name ->
    seedIndex name = Some n ->
    args !! n = Some a ->
    getText a <> getText a' ->
    EditsSeedArgument
      (VariableStatement mods
         (before ++ mkVariableDeclaration nm ex ty (Some (CallExpression src e args)) :: after)
         flags)
      (VariableStatement mods
         (before ++ mkVariableDeclaration nm ex ty
                      (Some (CallExpression src' e (<[n := a']> args))) :: after)
         flags).

(** What [join] puts before and after an element of the array. *)
Definition joinPrefix (sep : string) (l : list string) : string :=
  fold_right (fun x acc => x +:+ sep +:+ acc) EmptyString l.

Definition joinSuffix (sep : string) (l : list string) : string :=
  match l with
  | [] => EmptyString
  | _ => sep +:+ JsString.join sep l
  end.

(** A string without a line break. *)
Definition noLineBreak (s : string) : Prop := JsString.includes s JsString.LF = false.

Definition upperAscii (a : ascii) : bool :=
  Nat.leb 65 (nat_of_ascii a) && Nat.leb (nat_of_ascii a) 90.

(** *** Notions used for the hook-name set and the identifiers *)

(** The top-level statement [s] binds the name [h] in one of the ways the
    scan looks at: a function declaration of that name, a declarator of
    that identifier with a function-expression or arrow-function
    initializer, the default binding of an import, or the local name of a
    named import. *)
Inductive BindsName : Statement -> string -> Prop :=
| BindsFunction fn id :
    nameOf fn = Some id ->
    BindsName (FunctionDeclaration fn) (text id)
| BindsDeclarator mods decls flags d id fn :
    In d decls ->
    declaredFunction d = Some (id, fn) ->
    BindsName (VariableStatement mods decls flags) (text id)
| BindsDefaultImport c m id :
    clauseName c = Some id ->
    BindsName (ImportDeclaration (Some c) m) (text id)
| BindsNamedImport c m elements sp :
    namedBindings c = Some (NamedImports elements) ->
    In sp elements ->
    BindsName (ImportDeclaration (Some c) m) (text (specifierName sp)).

(** The library never returns the same identifier for two calls of
    [f.createUniqueName('_s', ...)] of one run. *)
Definition distinctNames {lib : TypeScript} : Prop :=
  forall n n', createUniqueName n "_s" = createUniqueName n' "_s" -> n = n'.

(** What the scan keeps true of the minted identifiers and of the map:
    [signatures] holds what the successive calls of the library returned,
    in their order; the identifier of every entry is one of them; when
    the library returns distinct names, two entries never share one. *)
Definition signatureInvariant {lib : TypeScript} (sigs : list Ident)
    (m : gmap NodeKey SignatureEntry) : Prop :=
  sigs = map (fun n => createUniqueName n "_s") (seq 0 (length sigs)) /\
  (forall k e, m !! k = Some e ->
     exists n, (n < length sigs)%nat /\ sigId e = createUniqueName n "_s") /\
  (distinctNames ->
   forall k k' e e', m !! k = Some e -> m !! k' = Some e' -> sigId e = sigId e' -> k = k').

(** [p] is a prefix of [s]. *)
Definition startsWith (s p : string) : Prop := exists q, s = p +:+ q.

(** What stands between the lines of two call sites in a key: the line
    break after the first, then the lines of the call sites between them,
    each with its line break. *)
Definition linesBetween (M : list HookCall) : string :=
  JsString.LF +:+ joinPrefix JsString.LF (map keyLine M).

(** The arguments [args] and [args'] of two calls of the hook [name] agree
    on what enters the key: for [useState] and [useReducer] the text of
    the argument at the seed index (or its absence), for any other hook
    nothing. *)
Definition sameSeedText (name : string) (args args' : list Expression) : Prop :=
  match seedIndex name with
  | Some n => getText <$> args !! n = getText <$> args' !! n
  | None => True
  end.

(** [s'] is [s] with one direct call changed in anything but the name of
    the hook, the name of the declarator and the seed argument: the other
    arguments, the object the hook is a member of, the text of the call,
    and for a declarator its type annotation. *)
Inductive EditsOtherArguments : Statement -> Statement -> Prop :=
| EditsExpressionArguments src src' e e' name args args' :
    calleeName e = Some name ->
    calleeName e' = Some name ->
    sameSeedText name args args' ->
    EditsOtherArguments
      (ExpressionStatement (CallExpression src e args))
      (ExpressionStatement (CallExpression src' e' args'))
| EditsDeclaratorArguments mods flags before after nm ex ex' ty ty'
    src src' e e' name args args' :
    calleeName e = Some name ->
    calleeName e' = Some name ->
    sameSeedText name args args' ->
    EditsOtherArguments
      (VariableStatement mods
         (before ++ mkVariableDeclaration nm ex ty (Some (CallExpression src e args)) :: after)
         flags)
      (VariableStatement mods
         (before ++ mkVariableDeclaration nm ex' ty' (Some (CallExpression src' e' args')) :: after)
         flags).

(** ** Facts about the string operations *)

Section StringFacts.

Lemma app_cons a s t : String a s +:+ t = String a (s +:+ t).
Proof. reflexivity. Qed.

Lemma app_nil_right s : s +:+ "" = s.
Proof. induction s as [|a s IH]; [reflexivity|]. rewrite app_cons, IH. reflexivity. Qed.

Lemma app_assoc_string s t u : (s +:+ t) +:+ u = s +:+ t +:+ u.
Proof.
  induction s as [|a s IH]; [reflexivity|].
  rewrite !app_cons, IH. reflexivity.
Qed.

Lemma length_app_string s t :
  String.length (s +:+ t) = String.length s + String.length t.
Proof.
  induction s as [|a s IH]; [reflexivity|].
  rewrite app_cons. simpl. rewrite IH. reflexivity.
Qed.

(** Cancellation of a common prefix and of a common suffix. *)
Lemma app_inv_head_string s t u : s +:+ t = s +:+ u -> t = u.
Proof. apply String.app_inj. Qed.

Lemma app_inv_tail_string s t u : s +:+ u = t +:+ u -> s = t.
Proof.
  revert t. induction s as [|a s IH]; intros [|b t] H.
  - reflexivity.
  - apply (f_equal String.length) in H.
    rewrite !length_app_string in H. simpl in H. lia.
  - apply (f_equal String.length) in H.
    rewrite !length_app_string in H. simpl in H. lia.
  - rewrite !app_cons in H. injection H as -> H. f_equal. apply IH, H.
Qed.

Lemma prefix_spec m s : String.prefix m s = true <-> exists q, s = m +:+ q.
Proof.
  revert s. induction m as [|a m IH]; intros s.
  - split; [intros _; exists s; reflexivity|]. intros _. destruct s; reflexivity.
  - destruct s as [|b s]; simpl.
    + split; [discriminate|]. intros [q Hq]. rewrite app_cons in Hq. discriminate.
    + destruct (ascii_dec a b) as [->|Hne].
      * rewrite IH. split; intros [q Hq]; exists q.
        -- rewrite app_cons, Hq. reflexivity.
        -- rewrite app_cons in Hq. injection Hq as ->. reflexivity.
      * split; [discriminate|]. intros [q Hq]. rewrite app_cons in Hq.
        injection Hq as -> _. contradiction.
Qed.

Lemma includes_nil m : JsString.includes "" m = String.prefix m "" || false.
Proof. reflexivity. Qed.

Lemma includes_cons a s m :
  JsString.includes (String a s) m = String.prefix m (String a s) || JsString.includes s m.
Proof. reflexivity. Qed.

(** [includes] is containment as an infix. *)
Lemma includes_spec s m :
  JsString.includes s m = true <-> exists p q, s = p +:+ m +:+ q.
Proof.
  induction s as [|a s IH].
  - rewrite includes_nil, orb_false_r, prefix_spec. split.
    + intros [q Hq]. exists "", q. exact Hq.
    + intros [p [q Hq]]. destruct p as [|b p]; [exists q; exact Hq|].
      rewrite app_cons in Hq. discriminate.
  - rewrite includes_cons, orb_true_iff, prefix_spec, IH. split.
    + intros [[q Hq]|[p [q Hq]]].
      * exists "", q. exact Hq.
      * exists (String a p), q. rewrite app_cons, Hq. reflexivity.
    + intros [p [q Hq]]. destruct p as [|b p].
      * left. exists q. exact Hq.
      * right. rewrite app_cons in Hq. injection Hq as -> ->. exists p, q. reflexivity.
Qed.

(** A substring is an infix of the string it is taken from. *)
Lemma substring_prefix m s : exists q, s = String.substring 0 m s +:+ q.
Proof.
  revert m. induction s as [|a s IH]; intros m.
  - exists "". destruct m; reflexivity.
  - destruct m as [|m].
    + exists (String a s). reflexivity.
    + destruct (IH m) as [q Hq]. exists q. simpl. rewrite app_cons, <- Hq. reflexivity.
Qed.

Lemma substring_infix n m s :
  exists p q, s = p +:+ String.substring n m s +:+ q.
Proof.
  revert n. induction s as [|a s IH]; intros n.
  - exists "", "". destruct n, m; reflexivity.
  - destruct n as [|n].
    + destruct (substring_prefix m (String a s)) as [q Hq]. exists "", q. exact Hq.
    + destruct (IH n) as [p [q Hq]]. exists (String a p), q.
      simpl. rewrite app_cons, <- Hq. reflexivity.
Qed.

(** A text that does not contain a marker has no substring containing it. *)
Lemma includes_substring a b s m :
  JsString.includes s m = false ->
  JsString.includes (JsString.substring a b s) m = false.
Proof.
  intros Hs. destruct (JsString.includes (JsString.substring a b s) m) eqn:E; [|reflexivity].
  apply includes_spec in E as [p [q Hpq]].
  destruct (substring_infix (Nat.min a b) (Nat.max a b - Nat.min a b) s) as [p' [q' Hs']].
  assert (JsString.includes s m = true) as Hc; [|congruence].
  apply includes_spec. exists (p' +:+ p), (q +:+ q').
  unfold JsString.substring in Hpq. rewrite Hs' at 1. rewrite Hpq.
  rewrite !app_assoc_string. reflexivity.
Qed.

End StringFacts.

(** ** Facts about the scan *)

Section ScanFacts.

Context {lib : TypeScript}.

Lemma scanDeclaration_unfold i j d st :
  scanDeclaration i j d st =
  match declaredFunction d with
  | Some (name, fn) =>
    whenSome (_getHookCallsSignature fn) (recordSignature (InitializerKey i j))
      (when (isHookName (text name)) (addSeenHook (text name))
        (when (isComponentishName (text name)) (pushComponent name) st))
  | None => st
  end.
Proof.
  destruct d as [[name|src] ex ty init]; [|reflexivity].
  unfold scanDeclaration, declaredFunction.
  destruct (functionInitializer init); reflexivity.
Qed.

Lemma scanDeclarations_app i ds1 : forall j ds2 st,
  scanDeclarations i j (ds1 ++ ds2) st =
  scanDeclarations i (j + length ds1) ds2 (scanDeclarations i j ds1 st).
Proof.
  induction ds1 as [|d ds1 IH]; intros j ds2 st; simpl.
  - rewrite Nat.add_0_r. reflexivity.
  - rewrite IH. f_equal. lia.
Qed.

Lemma scanStatements_app ts1 : forall i ts2 st,
  scanStatements i (ts1 ++ ts2) st =
  scanStatements (i + length ts1) ts2 (scanStatements i ts1 st).
Proof.
  induction ts1 as [|t ts1 IH]; intros i ts2 st; simpl.
  - rewrite Nat.add_0_r. reflexivity.
  - rewrite IH. f_equal. lia.
Qed.

Lemma scanStatements_snoc ts t st :
  scanStatements 0 (ts ++ [t]) st = scanStatement (length ts) t (scanStatements 0 ts st).
Proof. rewrite scanStatements_app. reflexivity. Qed.

(** *** The component list *)

Lemma components_scanDeclaration i j d st :
  components (scanDeclaration i j d st) = components st ++ componentsOfDeclaration d.
Proof.
  rewrite scanDeclaration_unfold. unfold componentsOfDeclaration, componentIf.
  destruct (declaredFunction d) as [[name fn]|]; [|by rewrite app_nil_r].
  destruct (_getHookCallsSignature fn), (isHookName (text name)),
    (isComponentishName (text name)); simpl; by rewrite ?app_nil_r.
Qed.

Lemma components_scanDeclarations i ds : forall j st,
  components (scanDeclarations i j ds st) = components st ++ flat_map componentsOfDeclaration ds.
Proof.
  induction ds as [|d ds IH]; intros j st; simpl.
  - by rewrite app_nil_r.
  - rewrite IH, components_scanDeclaration. by rewrite <- app_assoc.
Qed.

Lemma components_addSeenHooks names : forall st,
  components (fold_left (fun st name => addSeenHook name st) names st) = components st.
Proof. induction names as [|n names IH]; intros st; simpl; [done|]. by rewrite IH. Qed.

Lemma components_scanStatement i t st :
  components (scanStatement i t st) = components st ++ componentsOfStatement (node t).
Proof.
  unfold scanStatement. destruct (node t) as [fn|mods decls flags|e|c m|e|src]; simpl;
    rewrite ?app_nil_r; try done.
  - unfold scanFunctionDeclaration, componentIf.
    destruct (_getHookCallsSignature fn), (nameOf fn) as [name|]; simpl; rewrite ?app_nil_r; try done;
      destruct (isHookName (text name)), (isComponentishName (text name)); simpl;
      by rewrite ?app_nil_r.
  - apply components_scanDeclarations.
  - apply components_addSeenHooks.
Qed.

Lemma components_scanStatements ts : forall i st,
  components (scanStatements i ts st) =
  components st ++ flat_map (fun t => componentsOfStatement (node t)) ts.
Proof.
  induction ts as [|t ts IH]; intros i st; simpl.
  - by rewrite app_nil_r.
  - rewrite IH, components_scanStatement. by rewrite <- app_assoc.
Qed.

Lemma components_scan sf :
  components (scan sf) = flat_map (fun t => componentsOfStatement (node t)) (statements sf).
Proof. unfold scan. by rewrite components_scanStatements. Qed.

(** *** The working array *)

Lemma stStatements_scanDeclarations i ds : forall j st,
  stStatements (scanDeclarations i j ds st) = stStatements st.
Proof.
  induction ds as [|d ds IH]; intros j st; simpl; [done|].
  rewrite IH, scanDeclaration_unfold.
  destruct (declaredFunction d) as [[name fn]|]; [|done].
  by destruct (_getHookCallsSignature fn), (isHookName (text name)),
    (isComponentishName (text name)).
Qed.

Lemma stStatements_addSeenHooks names : forall st,
  stStatements (fold_left (fun st name => addSeenHook name st) names st) = stStatements st.
Proof. induction names as [|n names IH]; intros st; simpl; [done|]. by rewrite IH. Qed.

Lemma stStatements_scanStatement i t st :
  stStatements (scanStatement i t st) = stStatements st ++ [mkItem (Some i) t].
Proof.
  unfold scanStatement. destruct (node t) as [fn|mods decls flags|e|c m|e|src]; simpl; try done.
  - unfold scanFunctionDeclaration.
    destruct (_getHookCallsSignature fn), (nameOf fn) as [name|]; simpl; try done;
      by destruct (isHookName (text name)), (isComponentishName (text name)).
  - by rewrite stStatements_scanDeclarations.
  - by rewrite stStatements_addSeenHooks.
Qed.

Lemma stStatements_scanStatements ts : forall i st,
  stStatements (scanStatements i ts st) = stStatements st ++ itemsFrom i ts.
Proof.
  induction ts as [|t ts IH]; intros i st; simpl.
  - by rewrite app_nil_r.
  - rewrite IH, stStatements_scanStatement. by rewrite <- app_assoc.
Qed.

Lemma stStatements_scan sf : stStatements (scan sf) = itemsFrom 0 (statements sf).
Proof. unfold scan. by rewrite stStatements_scanStatements. Qed.

(** *** The set of hook names *)

Lemma seenHooks_scanDeclaration i j d st h :
  h ∈ seenHooks (scanDeclaration i j d st) <->
  h ∈ seenHooks st \/ In h (hookNamesOfDeclaration d).
Proof.
  rewrite scanDeclaration_unfold. unfold hookNamesOfDeclaration, hookNameIf.
  destruct (declaredFunction d) as [[name fn]|]; [|simpl; tauto].
  destruct (_getHookCallsSignature fn), (isHookName (text name)),
    (isComponentishName (text name)); simpl; set_solver.
Qed.

Lemma seenHooks_scanDeclarations i ds h : forall j st,
  h ∈ seenHooks (scanDeclarations i j ds st) <->
  h ∈ seenHooks st \/ In h (flat_map hookNamesOfDeclaration ds).
Proof.
  induction ds as [|d ds IH]; intros j st; simpl.
  - tauto.
  - rewrite IH, seenHooks_scanDeclaration, in_app_iff. tauto.
Qed.

Lemma seenHooks_addSeenHooks names h : forall st,
  h ∈ seenHooks (fold_left (fun st name => addSeenHook name st) names st) <->
  h ∈ seenHooks st \/ In h names.
Proof.
  induction names as [|n names IH]; intros st; simpl.
  - tauto.
  - rewrite IH. simpl. rewrite elem_of_union, elem_of_singleton. naive_solver.
Qed.

Lemma seenHooks_scanStatement i t st h :
  h ∈ seenHooks (scanStatement i t st) <->
  h ∈ seenHooks st \/ In h (hookNamesOfStatement (node t)).
Proof.
  unfold scanStatement. destruct (node t) as [fn|mods decls flags|e|c m|e|src]; simpl;
    try tauto.
  - unfold scanFunctionDeclaration, hookNameIf.
    destruct (_getHookCallsSignature fn), (nameOf fn) as [name|]; simpl; try tauto;
      destruct (isHookName (text name)), (isComponentishName (text name)); simpl;
      set_solver.
  - apply seenHooks_scanDeclarations.
  - apply seenHooks_addSeenHooks.
Qed.

Lemma seenHooks_scanStatements ts h : forall i st,
  h ∈ seenHooks (scanStatements i ts st) <->
  h ∈ seenHooks st \/ In h (flat_map (fun t => hookNamesOfStatement (node t)) ts).
Proof.
  induction ts as [|t ts IH]; intros i st; simpl.
  - tauto.
  - rewrite IH, seenHooks_scanStatement, in_app_iff. tauto.
Qed.

(** The hook-name set after the scan holds the hook names that the
    statements of the whole module declare or import. *)
Lemma seenHooks_scan sf h :
  h ∈ seenHooks (scan sf) <->
  In h (flat_map (fun t => hookNamesOfStatement (node t)) (statements sf)).
Proof.
  unfold scan. rewrite seenHooks_scanStatements. simpl. set_solver.
Qed.

(** *** The map of signatures *)

Lemma hookCalls_scanDeclaration i j d st k :
  signatureOfEntry <$> hookCalls (scanDeclaration i j d st) !! k =
  orElse (if decide (k = InitializerKey i j) then signatureOfDeclaration d else None)
         (signatureOfEntry <$> hookCalls st !! k).
Proof.
  rewrite scanDeclaration_unfold. unfold signatureOfDeclaration.
  destruct (declaredFunction d) as [[name fn]|]; [|by case_decide].
  destruct (_getHookCallsSignature fn) as [sig|] eqn:Hsig; simpl.
  - case_decide as Hk.
    + subst k. rewrite lookup_insert_eq. by destruct sig.
    + rewrite lookup_insert_ne by congruence.
      by destruct (isHookName (text name)), (isComponentishName (text name)).
  - case_decide; by destruct (isHookName (text name)), (isComponentishName (text name)).
Qed.

Lemma hookCalls_scanDeclarations i ds st k :
  signatureOfEntry <$> hookCalls (scanDeclarations i 0 ds st) !! k =
  orElse (if decide (keyIndex k = i) then signatureIn (VariableStatement [] ds 0) k else None)
         (signatureOfEntry <$> hookCalls st !! k).
Proof.
  induction ds as [|d ds IH] using rev_ind.
  - simpl. case_decide; [|done]. by destruct k.
  - rewrite scanDeclarations_app. simpl.
    rewrite hookCalls_scanDeclaration, IH. clear IH.
    destruct k as [i'|i' j]; simpl.
    + by repeat case_decide.
    + destruct (decide (i' = i)) as [->|Hi].
      * destruct (decide (j = length ds)) as [->|Hj].
        -- rewrite decide_True by done.
           rewrite list_lookup_middle by done.
           rewrite lookup_ge_None_2 by lia. simpl.
           by destruct (signatureOfDeclaration d).
        -- rewrite decide_False by congruence. simpl.
           destruct (decide (j < length ds)).
           ++ by rewrite lookup_app_l by done.
           ++ rewrite (lookup_ge_None_2 ds) by lia.
              by rewrite (lookup_ge_None_2 (ds ++ [d])) by (rewrite length_app; simpl; lia).
      * by rewrite decide_False by congruence.
Qed.

Lemma hookCalls_addSeenHooks names : forall st,
  hookCalls (fold_left (fun st name => addSeenHook name st) names st) = hookCalls st.
Proof. induction names as [|n names IH]; intros st; simpl; [done|]. by rewrite IH. Qed.

Lemma signatureIn_declarations mods ds flags k :
  signatureIn (VariableStatement mods ds flags) k = signatureIn (VariableStatement [] ds 0) k.
Proof. by destruct k. Qed.

Lemma hookCalls_scanStatement i t st k :
  signatureOfEntry <$> hookCalls (scanStatement i t st) !! k =
  orElse (if decide (keyIndex k = i) then signatureIn (node t) k else None)
         (signatureOfEntry <$> hookCalls st !! k).
Proof.
  unfold scanStatement. destruct (node t) as [fn|mods decls flags|e|c m|e|src]; simpl.
  - unfold scanFunctionDeclaration.
    destruct (_getHookCallsSignature fn) as [sig|] eqn:Hsig; simpl.
    + destruct k as [i'|i' j]; simpl.
      * case_decide as Hi.
        -- subst i'. rewrite Hsig, lookup_insert_eq. by destruct sig.
        -- rewrite lookup_insert_ne by congruence.
           destruct (nameOf fn) as [name|]; simpl; [|done].
           by destruct (isHookName (text name)), (isComponentishName (text name)).
      * rewrite lookup_insert_ne by congruence.
        assert (forall o : option HookCallsSignature,
          orElse (if decide (i' = i) then None else None) o = o) as -> by (by case_decide).
        destruct (nameOf fn) as [name|]; simpl; [|done].
        by destruct (isHookName (text name)), (isComponentishName (text name)).
    + assert ((if decide (keyIndex k = i) then signatureIn (FunctionDeclaration fn) k else None) = None) as ->.
      { case_decide; [|done]. destruct k; simpl; [exact Hsig|done]. }
      destruct (nameOf fn) as [name|]; simpl; [|done].
      by destruct (isHookName (text name)), (isComponentishName (text name)).
  - rewrite hookCalls_scanDeclarations. by rewrite (signatureIn_declarations mods decls flags).
  - case_decide; by destruct k.
  - rewrite hookCalls_addSeenHooks. case_decide; by destruct k.
  - case_decide; by destruct k.
  - case_decide; by destruct k.
Qed.

Lemma hookCalls_scanStatements ts st k :
  signatureOfEntry <$> hookCalls (scanStatements 0 ts st) !! k =
  orElse (signatureAt ts k) (signatureOfEntry <$> hookCalls st !! k).
Proof.
  induction ts as [|t ts IH] using rev_ind.
  - done.
  - rewrite scanStatements_snoc, hookCalls_scanStatement, IH. clear IH. unfold signatureAt.
    destruct (decide (keyIndex k = length ts)) as [->|Hk].
    + rewrite list_lookup_middle by done.
      rewrite lookup_ge_None_2 by lia. simpl.
      by destruct (signatureIn (node t) k).
    + simpl. destruct (decide (keyIndex k < length ts)).
      * by rewrite lookup_app_l by done.
      * rewrite (lookup_ge_None_2 ts) by lia.
        by rewrite (lookup_ge_None_2 (ts ++ [t])) by (rewrite length_app; simpl; lia).
Qed.

(** After the scan, the map has an entry exactly for the nodes that have
    a signature, and the entry carries that signature. *)
Lemma hookCalls_scan sf k :
  signatureOfEntry <$> hookCalls (scan sf) !! k = signatureAt (statements sf) k.
Proof.
  unfold scan. rewrite hookCalls_scanStatements. simpl.
  rewrite lookup_empty. by destruct (signatureAt (statements sf) k).
Qed.

(** *** The signature identifiers *)

Lemma signatures_scanDeclaration i j d st :
  length (signatures (scanDeclaration i j d st)) =
  length (signatures st) + length (option_list (signatureOfDeclaration d)).
Proof.
  rewrite scanDeclaration_unfold. unfold signatureOfDeclaration.
  destruct (declaredFunction d) as [[name fn]|]; [|simpl; lia].
  destruct (_getHookCallsSignature fn), (isHookName (text name)),
    (isComponentishName (text name)); simpl; rewrite ?length_app; simpl; lia.
Qed.

Lemma signatures_scanDeclarations i ds : forall j st,
  length (signatures (scanDeclarations i j ds st)) =
  length (signatures st) +
  length (flat_map (fun d => option_list (signatureOfDeclaration d)) ds).
Proof.
  induction ds as [|d ds IH]; intros j st; simpl; [lia|].
  rewrite IH, signatures_scanDeclaration, length_app. lia.
Qed.

Lemma signatures_addSeenHooks names : forall st,
  signatures (fold_left (fun st name => addSeenHook name st) names st) = signatures st.
Proof. induction names as [|n names IH]; intros st; simpl; [done|]. by rewrite IH. Qed.

Lemma signatures_scanStatement i t st :
  length (signatures (scanStatement i t st)) =
  length (signatures st) + length (signaturesOfStatement (node t)).
Proof.
  unfold scanStatement. destruct (node t) as [fn|mods decls flags|e|c m|e|src]; simpl;
    try lia.
  - unfold scanFunctionDeclaration.
    destruct (_getHookCallsSignature fn), (nameOf fn) as [name|]; simpl;
      rewrite ?length_app; simpl; try lia;
      destruct (isHookName (text name)), (isComponentishName (text name)); simpl; lia.
  - apply signatures_scanDeclarations.
  - rewrite signatures_addSeenHooks. lia.
Qed.

Lemma signatures_scanStatements ts : forall i st,
  length (signatures (scanStatements i ts st)) =
  length (signatures st) +
  length (flat_map (fun t => signaturesOfStatement (node t)) ts).
Proof.
  induction ts as [|t ts IH]; intros i st; simpl; [lia|].
  rewrite IH, signatures_scanStatement, length_app. lia.
Qed.

(** One identifier is minted for each signed function of the module. *)
Lemma signatures_scan sf :
  length (signatures (scan sf)) =
  length (flat_map (fun t => signaturesOfStatement (node t)) (statements sf)).
Proof. unfold scan. by rewrite signatures_scanStatements. Qed.

End ScanFacts.

(** ** Facts about the rewrite *)

Section RewriteFacts.

Context {lib : TypeScript}.


Lemma mapR_app {A B} (f : A -> Result B) l1 l2 :
  mapR f (l1 ++ l2) =
  bind (mapR f l1) (fun a => bind (mapR f l2) (fun b => Ok (a ++ b))).
Proof.
  induction l1 as [|x l1 IH]; simpl.
  - by destruct (mapR f l2).
  - destruct (f x) as [y|e]; simpl; [|done]. rewrite IH.
    destruct (mapR f l1) as [ys|e]; simpl; [|done].
    by destruct (mapR f l2).
Qed.

Lemma mapR_itemsFrom {B} (f : Item -> Result B) ts : forall i,
  mapR f (itemsFrom i ts) = mapiR (fun n t => f (mkItem (Some n) t)) i ts.
Proof. induction ts as [|t ts IH]; intros i; simpl; [done|]. by rewrite IH. Qed.

Lemma mapiR_ok {A B} (f : nat -> A -> Result B) (g : nat -> A -> B) l : forall j,
  (forall n x, l !! n = Some x -> f (j + n) x = Ok (g (j + n) x)) ->
  mapiR f j l = Ok (mapi g j l).
Proof.
  induction l as [|x l IH]; intros j H; simpl; [done|].
  pose proof (H 0 x eq_refl) as H0. rewrite Nat.add_0_r in H0. rewrite H0. simpl.
  rewrite IH; [done|]. intros n y Hn.
  replace (S j + n) with (j + S n) by lia. by apply H.
Qed.

Lemma mapiR_inv {A B} (f : nat -> A -> Result B) l : forall j bs,
  mapiR f j l = Ok bs ->
  length bs = length l /\
  forall n x, l !! n = Some x -> exists b, bs !! n = Some b /\ f (j + n) x = Ok b.
Proof.
  induction l as [|x l IH]; intros j bs H; simpl in H.
  - injection H as <-. split; [done|]. intros n x Hn. by destruct n.
  - destruct (f j x) as [y|e] eqn:Hy; simpl in H; [|done].
    destruct (mapiR f (S j) l) as [ys|e] eqn:Hys; simpl in H; [|done].
    injection H as <-. destruct (IH _ _ Hys) as [Hlen Hnth]. split; [simpl; lia|].
    intros [|n] z Hn; simpl in Hn.
    + injection Hn as <-. exists y. by rewrite Nat.add_0_r.
    + destruct (Hnth n z Hn) as [b [Hb Hf]]. exists b. split; [done|].
      by replace (j + S n) with (S j + n) by lia.
Qed.

Lemma mapi_ext {A B} (f g : nat -> A -> B) l : forall j,
  (forall n x, l !! n = Some x -> f (j + n) x = g (j + n) x) ->
  mapi f j l = mapi g j l.
Proof.
  induction l as [|x l IH]; intros j H; simpl; [done|]. f_equal.
  - specialize (H 0 x eq_refl). by rewrite Nat.add_0_r in H.
  - apply IH. intros n y Hn. replace (S j + n) with (j + S n) by lia. by apply H.
Qed.

Lemma mapi_const {A B} (g : A -> B) l : forall j, mapi (fun _ => g) j l = map g l.
Proof. induction l as [|x l IH]; intros j; simpl; [done|]. by rewrite IH. Qed.

Lemma mapi_lookup {A B} (f : nat -> A -> B) l : forall j n,
  mapi f j l !! n = f (j + n) <$> l !! n.
Proof.
  induction l as [|x l IH]; intros j [|n]; simpl; try done.
  - by rewrite Nat.add_0_r.
  - rewrite IH. by replace (S j + n) with (j + S n) by lia.
Qed.

(** A function that has a signature has a block body. *)
Lemma signature_block fn sig :
  _getHookCallsSignature fn = Some sig -> exists stmts, bodyOf fn = Block stmts.
Proof.
  unfold _getHookCallsSignature, bodyHookCalls.
  destruct (bodyOf fn) as [|stmts|e]; simpl; try discriminate. eauto.
Qed.

(** A declarator whose initializer is in no map passes through. *)
Lemma rewriteDeclaration_unsigned st comment o j d :
  lookupSignature st o (fun i => InitializerKey i j) = None ->
  rewriteDeclaration st comment o j d = Ok (d, []).
Proof.
  intros H. destruct d as [[name|src] ex ty [init|]]; simpl; try done.
  destruct init; simpl; rewrite ?H; done.
Qed.

(** The rewrite of a statement created by the factory: it is in no map,
    so nothing is signed; a variable statement is created again. *)
Lemma rewriteStatement_synthesized srcText st s :
  rewriteStatement srcText st (synthesized s) = Ok [synthesized (recreated s)].
Proof.
  unfold rewriteStatement. simpl.
  destruct s as [fn|mods decls flags|e|c m|e|src]; try done.
  rewrite (mapiR_ok _ (fun _ d => (d, []))).
  - simpl. rewrite mapi_const, map_map. simpl. rewrite map_id.
    replace (concat (map snd (map (fun d : VariableDeclaration => (d, @nil Statement)) decls)))
      with (@nil Statement); [done|].
    induction decls; simpl; [done|]. by rewrite <- IHdecls.
  - intros n d _. by apply rewriteDeclaration_unsigned.
Qed.

(** The registration calls are expression statements: the rewrite returns
    them as they are. *)
Lemma mapR_registrationCalls srcText st names :
  mapR (rewriteStatement srcText st)
    (map (fun name => synthesized (registrationCall name)) names) =
  Ok (map (fun name => [synthesized (registrationCall name)]) names).
Proof.
  induction names as [|name names IH]; simpl; [done|].
  by rewrite IH.
Qed.

Lemma concat_singletons {A} (l : list A) : concat (map (fun x => [x]) l) = l.
Proof. induction l; simpl; [done|]. by f_equal. Qed.

(** The shape of the output: the signature declaration when there is a
    signature, the blocks that replace the parsed statements in their
    order, the registration calls. *)
Lemma transform_structure sf :
  transform sf =
  bind (mapiR (fun i t => rewriteStatement (sourceText sf) (scan sf) (mkItem (Some i) t))
              0 (statements sf))
       (fun blocks => Ok (signaturePrefix (scan sf) ++ concat blocks ++
                          map (fun name => synthesized (registrationCall name))
                            (components (scan sf)))).
Proof.
  unfold transform, workingStatements, signaturePrefix.
  rewrite stStatements_scan.
  set (f := rewriteStatement (sourceText sf) (scan sf)).
  set (regs := map (fun name => synthesized (registrationCall name)) (components (scan sf))).
  assert (mapR f (itemsFrom 0 (statements sf) ++ regs) =
          bind (mapiR (fun i t => f (mkItem (Some i) t)) 0 (statements sf))
               (fun blocks => Ok (blocks ++ map (fun it => [it]) regs))) as Hbody.
  { rewrite mapR_app, mapR_itemsFrom.
    unfold f at 2, regs. rewrite mapR_registrationCalls, map_map.
    by destruct (mapiR _ 0 (statements sf)). }
  destruct (Nat.ltb 0 (length (signatures (scan sf)))); simpl.
  - unfold f at 1. rewrite rewriteStatement_synthesized. simpl. rewrite Hbody.
    destruct (mapiR _ 0 (statements sf)) as [blocks|e]; simpl; [|done].
    by rewrite concat_app, concat_singletons.
  - rewrite Hbody.
    destruct (mapiR _ 0 (statements sf)) as [blocks|e]; simpl; [|done].
    by rewrite concat_app, concat_singletons.
Qed.

(** *** What [_sign] returns *)

Lemma sign_declaration fn stmts name id k fr ch :
  bodyOf fn = Block stmts ->
  _sign (StatementNode (FunctionDeclaration fn)) name id k fr ch =
  Some (StatementNode (FunctionDeclaration (signedFunction id fn stmts)),
        recordingStatement name id k fr ch).
Proof. intros H. unfold _sign. simpl. by rewrite H. Qed.

Lemma sign_initializer init fn stmts name id k fr ch :
  functionInitializer (Some init) = Some fn ->
  bodyOf fn = Block stmts ->
  _sign (ExpressionNode init) name id k fr ch =
  Some (ExpressionNode (signedInitializer id init stmts),
        recordingStatement name id k fr ch).
Proof.
  intros Hi H. unfold _sign.
  destruct init; simpl in Hi; try discriminate; injection Hi as ->; simpl; by rewrite H.
Qed.

(** *** The map entries of a scanned module *)

Lemma lookup_signatureAt sf k entry :
  hookCalls (scan sf) !! k = Some entry ->
  signatureAt (statements sf) k = Some (signatureOfEntry entry).
Proof. intros H. rewrite <- hookCalls_scan, H. done. Qed.

Lemma signatureAt_lookup sf k sig :
  signatureAt (statements sf) k = Some sig ->
  exists entry, hookCalls (scan sf) !! k = Some entry /\ signatureOfEntry entry = sig.
Proof.
  rewrite <- hookCalls_scan. destruct (hookCalls (scan sf) !! k) as [entry|]; [|done].
  simpl. intros [= <-]. eauto.
Qed.

Lemma signatureAt_None sf k :
  signatureAt (statements sf) k = None -> hookCalls (scan sf) !! k = None.
Proof.
  rewrite <- hookCalls_scan. by destruct (hookCalls (scan sf) !! k).
Qed.

Lemma signatureAt_function sf i t fn :
  statements sf !! i = Some t -> node t = FunctionDeclaration fn ->
  signatureAt (statements sf) (FunctionKey i) = _getHookCallsSignature fn.
Proof. intros Ht Hn. unfold signatureAt. simpl. by rewrite Ht, Hn. Qed.

Lemma signatureAt_initializer sf i t mods decls flags j d :
  statements sf !! i = Some t -> node t = VariableStatement mods decls flags ->
  decls !! j = Some d ->
  signatureAt (statements sf) (InitializerKey i j) = signatureOfDeclaration d.
Proof. intros Ht Hn Hd. unfold signatureAt. simpl. by rewrite Ht, Hn, Hd. Qed.

(** *** The rewrite of a parsed statement *)

Lemma rewrittenDeclaration_unsigned sf comment i t mods decls flags j d :
  statements sf !! i = Some t -> node t = VariableStatement mods decls flags ->
  decls !! j = Some d ->
  signatureOfDeclaration d = None ->
  rewrittenDeclaration (scan sf) comment i j d = (d, []).
Proof.
  intros Ht Hn Hd Hsig.
  pose proof (signatureAt_initializer sf i t mods decls flags j d Ht Hn Hd) as Hat.
  rewrite Hsig in Hat. apply signatureAt_None in Hat.
  unfold rewrittenDeclaration. rewrite Hat.
  destruct d as [[name|src] ex ty [init|]]; try done.
  by destruct (functionInitializer (Some init)).
Qed.

Lemma rewrittenDeclaration_signed sf comment i t mods decls flags j d sig :
  statements sf !! i = Some t -> node t = VariableStatement mods decls flags ->
  decls !! j = Some d ->
  signatureOfDeclaration d = Some sig ->
  exists name fn entry stmts ex ty init,
    d = mkVariableDeclaration (BindingIdentifier name) ex ty (Some init) /\
    declaredFunction d = Some (name, fn) /\
    functionInitializer (Some init) = Some fn /\
    bodyOf fn = Block stmts /\
    hookCalls (scan sf) !! InitializerKey i j = Some entry /\
    signatureOfEntry entry = sig /\
    rewrittenDeclaration (scan sf) comment i j d =
      (mkVariableDeclaration (BindingIdentifier name) ex ty
         (Some (signedInitializer (sigId entry) init stmts)),
       [recordingOf (scan sf) comment name entry]).
Proof.
  intros Ht Hn Hd Hsig.
  pose proof (signatureAt_initializer sf i t mods decls flags j d Ht Hn Hd) as Hat.
  rewrite Hsig in Hat. apply signatureAt_lookup in Hat as [entry [He Hes]].
  unfold signatureOfDeclaration in Hsig.
  destruct (declaredFunction d) as [[name fn]|] eqn:Hdf; [|done].
  destruct (signature_block fn sig Hsig) as [stmts Hb].
  destruct d as [[name'|src] ex ty init]; [|done].
  unfold declaredFunction in Hdf.
  destruct (functionInitializer init) as [fn'|] eqn:Hfi; [|done].
  injection Hdf as -> ->.
  destruct init as [init|]; [|done].
  exists name, fn, entry, stmts, ex, ty, init.
  repeat split; try done.
  unfold rewrittenDeclaration. by rewrite Hfi, He, Hb.
Qed.

Lemma rewriteDeclaration_scan sf comment i t mods decls flags j d :
  statements sf !! i = Some t -> node t = VariableStatement mods decls flags ->
  decls !! j = Some d ->
  rewriteDeclaration (scan sf) comment (Some i) j d =
  Ok (rewrittenDeclaration (scan sf) comment i j d).
Proof.
  intros Ht Hn Hd.
  destruct (signatureOfDeclaration d) as [sig|] eqn:Hsig.
  - destruct (rewrittenDeclaration_signed sf comment i t mods decls flags j d sig Ht Hn Hd Hsig)
      as (name & fn & entry & stmts & ex & ty & init & -> & _ & Hfi & Hb & He & _ & ->).
    unfold rewriteDeclaration, lookupSignature. rewrite Hfi, He.
    by rewrite (sign_initializer init fn stmts) by done.
  - rewrite (rewrittenDeclaration_unsigned sf comment i t mods decls flags j d) by done.
    apply rewriteDeclaration_unsigned. simpl. apply signatureAt_None.
    by rewrite (signatureAt_initializer sf i t mods decls flags j d).
Qed.

Lemma rewriteStatement_variable sf i t mods decls flags :
  statements sf !! i = Some t -> node t = VariableStatement mods decls flags ->
  rewriteStatement (sourceText sf) (scan sf) (mkItem (Some i) t) =
  Ok (let rs := mapi (rewrittenDeclaration (scan sf)
                        (forceResetComment (sourceText sf) (pos t)) i)
                     0 decls in
      synthesized (createVariableStatement mods (map fst rs) flags) ::
      map synthesized (concat (map snd rs))).
Proof.
  intros Ht Hn. unfold rewriteStatement. simpl. rewrite Hn.
  rewrite (mapiR_ok _ (rewrittenDeclaration (scan sf)
    (forceResetComment (sourceText sf) (pos t)) i)); [done|].
  intros n d Hd. simpl. by apply (rewriteDeclaration_scan sf _ i t mods decls flags).
Qed.

Lemma rewriteStatement_function_unsigned sf i t fn :
  statements sf !! i = Some t -> node t = FunctionDeclaration fn ->
  _getHookCallsSignature fn = None ->
  rewriteStatement (sourceText sf) (scan sf) (mkItem (Some i) t) =
  Ok [mkItem (Some i) t].
Proof.
  intros Ht Hn Hsig. unfold rewriteStatement, lookupSignature. simpl. rewrite Hn.
  rewrite signatureAt_None; [done|]. by rewrite (signatureAt_function sf i t fn).
Qed.

Lemma rewriteStatement_function_signed sf i t fn sig :
  statements sf !! i = Some t -> node t = FunctionDeclaration fn ->
  _getHookCallsSignature fn = Some sig ->
  exists entry stmts,
    hookCalls (scan sf) !! FunctionKey i = Some entry /\
    signatureOfEntry entry = sig /\
    bodyOf fn = Block stmts /\
    rewriteStatement (sourceText sf) (scan sf) (mkItem (Some i) t) =
    match nameOf fn with
    | Some name =>
      Ok [synthesized (FunctionDeclaration (signedFunction (sigId entry) fn stmts));
          synthesized (recordingOf (scan sf)
            (forceResetComment (sourceText sf) (pos t)) name entry)]
    | None => Throw NameUndefined
    end.
Proof.
  intros Ht Hn Hsig.
  pose proof (signatureAt_function sf i t fn Ht Hn) as Hat. rewrite Hsig in Hat.
  apply signatureAt_lookup in Hat as [entry [He Hes]].
  destruct (signature_block fn sig Hsig) as [stmts Hb].
  exists entry, stmts. repeat split; try done.
  unfold rewriteStatement, lookupSignature. simpl. rewrite Hn, He.
  destruct (nameOf fn) as [name|]; [|done].
  by rewrite (sign_declaration fn stmts) by done.
Qed.

Lemma rewriteStatement_other srcText st o t :
  match node t with
  | FunctionDeclaration _ | VariableStatement _ _ _ => False
  | _ => True
  end ->
  rewriteStatement srcText st (mkItem o t) = Ok [mkItem o t].
Proof. unfold rewriteStatement. simpl. by destruct (node t). Qed.

(** *** Failure and success of the rewrite *)

(** The only failure of the rewrite of a parsed statement is the missing
    name of a signed function declaration. *)
Lemma rewriteStatement_throw sf i t e :
  statements sf !! i = Some t ->
  rewriteStatement (sourceText sf) (scan sf) (mkItem (Some i) t) = Throw e ->
  e = NameUndefined /\ anonymousSigned (node t).
Proof.
  intros Ht H. destruct (node t) as [fn|mods decls flags|x|c m|x|src] eqn:Hn.
  - destruct (_getHookCallsSignature fn) as [sig|] eqn:Hsig.
    + destruct (rewriteStatement_function_signed sf i t fn sig Ht Hn Hsig)
        as (entry & stmts & _ & _ & _ & Hr).
      rewrite Hr in H. destruct (nameOf fn) as [name|] eqn:Hname; [done|].
      injection H as <-. split; [done|]. by exists fn, sig.
    + by rewrite (rewriteStatement_function_unsigned sf i t fn) in H.
  - by rewrite (rewriteStatement_variable sf i t mods decls flags) in H.
  - rewrite rewriteStatement_other in H; [done|by rewrite Hn].
  - rewrite rewriteStatement_other in H; [done|by rewrite Hn].
  - rewrite rewriteStatement_other in H; [done|by rewrite Hn].
  - rewrite rewriteStatement_other in H; [done|by rewrite Hn].
Qed.

Lemma mapiR_throw {A B} (f : nat -> A -> Result B) l : forall j e,
  mapiR f j l = Throw e -> exists n x, l !! n = Some x /\ f (j + n) x = Throw e.
Proof.
  induction l as [|x l IH]; intros j e H; simpl in H; [done|].
  destruct (f j x) as [y|e'] eqn:Hy; simpl in H.
  - destruct (mapiR f (S j) l) as [ys|e''] eqn:Hys; simpl in H; [done|].
    injection H as ->. destruct (IH _ _ Hys) as (n & z & Hn & Hf).
    exists (S n), z. split; [done|]. by replace (j + S n) with (S j + n) by lia.
  - injection H as ->. exists 0, x. split; [done|]. by rewrite Nat.add_0_r.
Qed.

(** [transform] fails only on a module with a signed function declaration
    that has no name, and then with the [TypeError] of [node.name!.text]. *)
Lemma transform_throw sf e :
  transform sf = Throw e ->
  e = NameUndefined /\ exists t, In t (statements sf) /\ anonymousSigned (node t).
Proof.
  rewrite transform_structure.
  destruct (mapiR _ 0 (statements sf)) as [blocks|e'] eqn:Hm; simpl; [done|].
  intros [= ->]. apply mapiR_throw in Hm as (n & t & Hn & Hf).
  apply rewriteStatement_throw in Hf as [-> Ha]; [|done].
  split; [done|]. exists t. split; [|done].
  apply list_elem_of_In. by eapply list_elem_of_lookup_2.
Qed.

(** [transform] returns the statements of the updated file on every module
    whose signed function declarations have names. *)
Lemma transform_succeeds sf :
  (forall t, In t (statements sf) -> ~ anonymousSigned (node t)) ->
  exists out, transform sf = Ok out.
Proof.
  intros H. destruct (transform sf) as [out|e] eqn:Ht; [eauto|].
  apply transform_throw in Ht as [_ (t & Hin & Ha)]. by destruct (H t Hin).
Qed.

(** The blocks of a successful run. *)
Lemma transform_ok_inv sf out :
  transform sf = Ok out ->
  exists blocks,
    out = signaturePrefix (scan sf) ++ concat blocks ++
          map (fun name => synthesized (registrationCall name)) (components (scan sf)) /\
    length blocks = length (statements sf) /\
    forall i t, statements sf !! i = Some t ->
      exists b, blocks !! i = Some b /\
        rewriteStatement (sourceText sf) (scan sf) (mkItem (Some i) t) = Ok b.
Proof.
  rewrite transform_structure.
  destruct (mapiR _ 0 (statements sf)) as [blocks|e'] eqn:Hm; simpl; [|done].
  intros [= <-]. exists blocks. apply mapiR_inv in Hm as [Hlen Hnth]. eauto.
Qed.

(** [transform] returns exactly on the modules whose signed function
    declarations all have a name. *)
Lemma transform_ok_iff sf :
  (exists out, transform sf = Ok out) <->
  (forall t, In t (statements sf) -> ~ anonymousSigned (node t)).
Proof.
  split; [|apply transform_succeeds].
  intros [out Hout] t Hin (fn & sig & Hn & Hname & Hsig).
  apply transform_ok_inv in Hout as (blocks & _ & _ & Hnth).
  apply list_elem_of_In, list_elem_of_lookup in Hin as [i Hi].
  destruct (Hnth i t Hi) as (b & _ & Hr).
  destruct (rewriteStatement_function_signed sf i t fn sig Hi Hn Hsig)
    as (entry & stmts & _ & _ & _ & Hr').
  rewrite Hr', Hname in Hr. discriminate.
Qed.

Lemma in_block_in_output {A} (pre post : list A) blocks i b x :
  blocks !! i = Some b -> In x b -> In x (pre ++ concat blocks ++ post).
Proof.
  intros Hb Hx. apply in_or_app. right. apply in_or_app. left.
  apply in_concat. exists b. split; [|done].
  apply list_elem_of_In. by eapply list_elem_of_lookup_2.
Qed.

(** The recording statement of a signed function follows, in the block of
    the statement that defines the function, the statement itself. *)
Lemma recording_in_block sf k name p sig t b :
  SignedFunction sf k name p sig ->
  statements sf !! keyIndex k = Some t ->
  rewriteStatement (sourceText sf) (scan sf)
    (mkItem (Some (keyIndex k)) t) = Ok b ->
  exists entry s' recs,
    hookCalls (scan sf) !! k = Some entry /\
    signatureOfEntry entry = sig /\
    b = s' :: map synthesized recs /\
    In (recordingOf (scan sf) (forceResetComment (sourceText sf) p)
          name entry) recs.
Proof.
  intros Hs Hk Hr.
  destruct Hs as [i t' fn name sig Hi Hn Hname Hsig
                 |i j t' mods decls flags d name fn sig Hi Hn Hd Hdf Hsig];
    simpl in Hk, Hr; rewrite Hi in Hk; injection Hk as <-.
  - destruct (rewriteStatement_function_signed sf i t' fn sig Hi Hn Hsig)
      as (entry & stmts & He & Hes & _ & Hr').
    rewrite Hr', Hname in Hr. injection Hr as <-.
    eexists entry, _, [_]. repeat split; try done. by left.
  - rewrite (rewriteStatement_variable sf i t' mods decls flags Hi Hn) in Hr.
    injection Hr as <-.
    assert (signatureOfDeclaration d = Some sig) as Hsd.
    { unfold signatureOfDeclaration. by rewrite Hdf. }
    destruct (rewrittenDeclaration_signed sf
      (forceResetComment (sourceText sf) (pos t'))
      i t' mods decls flags j d sig Hi Hn Hd Hsd)
      as (name' & fn' & entry & stmts & ex & ty & init & Hdeq & Hdf' & _ & _ & He & Hes & Hrd).
    rewrite Hdf in Hdf'. injection Hdf' as <- <-.
    eexists entry, _, _. repeat split; try done.
    apply in_concat.
    exists [recordingOf (scan sf)
              (forceResetComment (sourceText sf) (pos t')) name entry].
    split; [|by left].
    apply in_map_iff.
    exists (rewrittenDeclaration (scan sf)
              (forceResetComment (sourceText sf) (pos t')) i j d).
    split; [by rewrite Hrd|].
    apply list_elem_of_In. eapply (list_elem_of_lookup_2 _ j).
    by rewrite mapi_lookup, Hd.
Qed.

Lemma signedFunction_statement sf k name p sig :
  SignedFunction sf k name p sig -> exists t, statements sf !! keyIndex k = Some t.
Proof. intros [i t ? ? ? Hi|i j t ? ? ? ? ? ? ? Hi]; simpl; eauto. Qed.

(** The recording statement of every signed function is in the output. *)
Lemma recording_emitted sf k name p sig out :
  SignedFunction sf k name p sig ->
  transform sf = Ok out ->
  exists entry,
    hookCalls (scan sf) !! k = Some entry /\
    signatureOfEntry entry = sig /\
    In (synthesized (recordingOf (scan sf) (forceResetComment (sourceText sf) p)
          name entry)) out.
Proof.
  intros Hs Ht. apply transform_ok_inv in Ht as (blocks & -> & _ & Hnth).
  destruct (signedFunction_statement sf k name p sig Hs) as [t Hk].
  destruct (Hnth _ t Hk) as (b & Hb & Hr).
  destruct (recording_in_block sf k name p sig t b Hs Hk Hr)
    as (entry & s' & recs & He & Hes & -> & Hin).
  exists entry. repeat split; try done.
  eapply in_block_in_output; [exact Hb|]. right. by apply in_map.
Qed.

End RewriteFacts.

(** ** Properties of the transform *)

Section Properties.

Context {lib : TypeScript}.

(** *** The comment test *)

Lemma forceResetComment_true srcText p :
  forceResetComment srcText p = true <->
  exists ranges r,
    getLeadingCommentRanges srcText p = Some ranges /\ In r ranges /\
    JsString.includes (JsString.substring (rangePos r) (rangeEnd r) srcText)
      refreshResetMarker = true.
Proof.
  unfold forceResetComment.
  destruct (getLeadingCommentRanges srcText p) as [ranges|].
  - rewrite negb_true_iff, Nat.eqb_neq. split.
    + intros H.
      destruct (List.filter _ ranges) as [|r l] eqn:Hf; [done|].
      assert (In r (List.filter (fun r => JsString.includes
        (JsString.substring (rangePos r) (rangeEnd r) srcText) refreshResetMarker) ranges)) as Hin
        by (rewrite Hf; by left).
      apply filter_In in Hin as [Hin Hr]. eauto.
    + intros (ranges' & r & [= <-] & Hin & Hr).
      assert (In r (List.filter (fun r => JsString.includes
        (JsString.substring (rangePos r) (rangeEnd r) srcText) refreshResetMarker) ranges)) as Hin'
        by (apply filter_In; done).
      by destruct (List.filter _ ranges).
  - split; [done|]. by intros (? & ? & ? & _).
Qed.

(** A text without the marker never forces a reset, whatever ranges the
    comment scanner returns. *)
Lemma forceResetComment_no_marker srcText p :
  JsString.includes srcText refreshResetMarker = false ->
  forceResetComment srcText p = false.
Proof.
  intros H. apply not_true_is_false. rewrite forceResetComment_true.
  intros (ranges & r & _ & _ & Hr).
  by rewrite includes_substring in Hr.
Qed.

Lemma mapR_ext {A B} (f g : A -> Result B) l :
  (forall x, f x = g x) -> mapR f l = mapR g l.
Proof. intros H. induction l as [|x l IH]; simpl; [done|]. by rewrite H, IH. Qed.

(** On a text without the marker the library can be taken to find no
    comment at all. *)
Lemma transform_no_marker sf :
  JsString.includes (sourceText sf) refreshResetMarker = false ->
  transform sf = transform (lib := Example.withoutComments lib) sf.
Proof.
  intros H. unfold transform.
  change (scan (lib := Example.withoutComments lib) sf) with (scan sf).
  change (workingStatements (lib := Example.withoutComments lib) (scan sf))
    with (workingStatements (scan sf)).
  f_equal. apply mapR_ext. intros it.
  unfold rewriteStatement.
  rewrite !(forceResetComment_no_marker _ _ H).
  by change (forceResetComment (lib := Example.withoutComments lib) (sourceText sf) (pos (top it)))
    with false.
Qed.

(** C1. For the module made of
    [function Counter(){ const [n,setN]=useState(0); useMyHook(); return null }]
    and [function useMyHook(){ return 1 }], the transform mints exactly one
    signature, for [Counter]; its key is ["useState{[n,setN](0)}"], a line
    break, ["useMyHook{}"]; the recording call passes [false] for
    forceReset and a function returning [[useMyHook]]; the output ends
    with the one registration call [$RefreshReg$(Counter, "Counter")].
    This holds whatever the library answers. *)
Theorem counter_module_output :
  transform Example.module = Ok Example.output /\
  signatures (scan Example.module) = [Example.s0] /\
  hookCalls (scan Example.module) =
    {[ FunctionKey 0 := mkSignatureEntry Example.s0 Example.counterKey ["useMyHook"] ]} /\
  Example.counterKey = "useState{[n,setN](0)}" +:+ JsString.LF +:+ "useMyHook{}" /\
  recordingStatement "Counter" Example.s0 Example.counterKey false ["useMyHook"] =
    ExpressionStatement (CallExpression "" (Identifier Example.s0)
      [ Identifier (parsedIdent "Counter");
        StringLiteral Example.counterKey;
        FalseKeyword;
        FunctionExpression "" (mkFunction Example.noHead None
          (Block [ReturnStatement (ArrayLiteralExpression
                    [Identifier (parsedIdent "useMyHook")])])) ]) /\
  Example.output =
    [ synthesized (VariableStatement []
        [ mkVariableDeclaration (BindingIdentifier Example.s0) false None
            (Some (CallExpression "" (Identifier (parsedIdent "$RefreshSig$")) [])) ]
        (createdListFlags (createdListFlags NodeFlags_Const)));
      synthesized (FunctionDeclaration (mkFunction Example.noHead (Some (parsedIdent "Counter"))
        (Block (ExpressionStatement (CallExpression "" (Identifier Example.s0) []) ::
                Example.counterBody))));
      synthesized (recordingStatement "Counter" Example.s0 Example.counterKey false ["useMyHook"]);
      mkItem (Some 1) (mkTopLevel (Z.of_nat (String.length Example.counterText)) Example.useMyHook);
      synthesized (ExpressionStatement
        (CallExpression "" (Identifier (parsedIdent "$RefreshReg$"))
           [ Identifier (parsedIdent "Counter"); StringLiteral "Counter" ])) ] /\
  last Example.output =
    Some (synthesized (ExpressionStatement
      (CallExpression "" (Identifier (parsedIdent "$RefreshReg$"))
         [ Identifier (parsedIdent "Counter"); StringLiteral "Counter" ]))).
Proof.
  split; [|repeat split].
  rewrite transform_no_marker by (vm_compute; reflexivity).
  vm_compute. reflexivity.
Qed.

(** *** The recording statement of a signed function *)

Lemma filter_length_all {A} (P : A -> bool) l :
  length (List.filter P l) = length l <-> forall x, In x l -> P x = true.
Proof.
  induction l as [|a l IH]; simpl; [by split|].
  pose proof (filter_length_le P l) as Hle.
  destruct (P a) eqn:Ha; simpl.
  - split.
    + intros H x [->|Hx]; [done|]. apply IH; [lia|done].
    + intros H. f_equal. apply IH. auto.
  - split; [lia|]. intros H. rewrite H in Ha by auto. done.
Qed.

Lemma resolveCustomHooks_In st l h :
  In h (resolveCustomHooks st l) <-> In h l /\ h ∈ seenHooks st.
Proof.
  unfold resolveCustomHooks. rewrite filter_In.
  by rewrite bool_decide_eq_true.
Qed.

(** The forceReset argument is true exactly when there is a reset comment
    or some custom hook of the function is not in the hook-name set. *)
Lemma forceResetOf_true st comment l :
  forceResetOf comment (resolveCustomHooks st l) l = true <->
  comment = true \/ exists h, In h l /\ h ∉ seenHooks st.
Proof.
  unfold forceResetOf, resolveCustomHooks.
  rewrite orb_true_iff, negb_true_iff, Nat.eqb_neq, filter_length_all.
  split; (intros [H|H]; [by left|right]).
  - destruct (decide (Exists (fun h => h ∉ seenHooks st) l)) as [He|He].
    + apply Exists_exists in He as (h & Hin%list_elem_of_In & Hh). eauto.
    + destruct H. intros h Hin. apply bool_decide_eq_true.
      destruct (decide (h ∈ seenHooks st)); [done|].
      destruct He. apply Exists_exists. exists h. split; [by apply list_elem_of_In|done].
  - destruct H as (h & Hin & Hh). intros Hall.
    specialize (Hall h Hin). by apply bool_decide_eq_true in Hall.
Qed.

Lemma recording_in_output sf k name p sig out :
  SignedFunction sf k name p sig ->
  transform sf = Ok out ->
  exists sigId,
    In (synthesized (recordingStatement (text name) sigId (key sig)
          (forceResetOf (forceResetComment (sourceText sf) p)
             (resolveCustomHooks (scan sf) (customHooks sig)) (customHooks sig))
          (resolveCustomHooks (scan sf) (customHooks sig)))) out.
Proof.
  intros Hs Ht.
  destruct (recording_emitted sf k name p sig out Hs Ht)
    as (entry & _ & <- & Hin).
  exists (sigId entry). exact Hin.
Qed.

(** C4. For a function with hook calls, a custom hook name that is not in
    the hook-name set of the module is left out of the emitted customHooks
    list, and the recording call, a new statement of the output, passes
    [true] for forceReset. *)
Theorem unresolved_custom_hook_forces_reset sf k name p sig h out :
  SignedFunction sf k name p sig ->
  In h (customHooks sig) ->
  h ∉ seenHooks (scan sf) ->
  transform sf = Ok out ->
  exists sigId emitted,
    emitted = resolveCustomHooks (scan sf) (customHooks sig) /\
    ~ In h emitted /\
    In (synthesized (recordingStatement (text name) sigId (key sig) true emitted)) out /\
    recordingStatement (text name) sigId (key sig) true emitted =
      ExpressionStatement (createCall (Identifier sigId)
        ([createIdentifier (text name); StringLiteral (key sig); TrueKeyword] ++
         (if Nat.ltb 0 (length emitted) then [getCustomHooks emitted] else []))).
Proof.
  intros Hs Hin Hh Ht.
  destruct (recording_in_output sf k name p sig out Hs Ht) as [id Hrec].
  exists id, (resolveCustomHooks (scan sf) (customHooks sig)).
  assert (forceResetOf (forceResetComment (sourceText sf) p)
            (resolveCustomHooks (scan sf) (customHooks sig)) (customHooks sig) = true) as Hfr.
  { apply forceResetOf_true. right. eauto. }
  rewrite Hfr in Hrec. repeat split; try done.
  rewrite resolveCustomHooks_In. tauto.
Qed.

(** C7. For a signed function, when a comment range in front of its
    defining top-level statement contains [@refresh reset], the recording
    call passes [true] for forceReset, whatever the resolution of the
    custom hooks gives. *)
Theorem reset_comment_forces_reset sf k name p sig out ranges r :
  SignedFunction sf k name p sig ->
  getLeadingCommentRanges (sourceText sf) p = Some ranges ->
  In r ranges ->
  JsString.includes (JsString.substring (rangePos r) (rangeEnd r) (sourceText sf))
    "@refresh reset" = true ->
  transform sf = Ok out ->
  exists sigId,
    let emitted := resolveCustomHooks (scan sf) (customHooks sig) in
    In (synthesized (recordingStatement (text name) sigId (key sig) true emitted)) out /\
    recordingStatement (text name) sigId (key sig) true emitted =
      ExpressionStatement (createCall (Identifier sigId)
        ([createIdentifier (text name); StringLiteral (key sig); TrueKeyword] ++
         (if Nat.ltb 0 (length emitted) then [getCustomHooks emitted] else []))).
Proof.
  intros Hs Hr Hin Hinc Ht.
  destruct (recording_in_output sf k name p sig out Hs Ht) as [id Hrec].
  exists id.
  assert (forceResetComment (sourceText sf) p = true) as Hc.
  { apply forceResetComment_true. eauto. }
  rewrite Hc in Hrec. simpl in Hrec. split; [exact Hrec|reflexivity].
Qed.

(** C10. A function that the scan gives a signature has a block body, so
    [_sign] returns the pair of the rewritten function and the recording
    statement on it, for each of the three kinds of function node; the
    rewritten body is the call [sigId()] followed by the statements of the
    original body.  The rewrite of a module therefore never meets an
    undefined result of [_sign]. *)
Theorem signed_function_has_block_body :
  (forall fn sig,
     _getHookCallsSignature fn = Some sig ->
     exists stmts,
       bodyOf fn = Block stmts /\
       forall fnName sigId key forceReset customHooks src,
         let signed := mkFunction (headOf fn) (nameOf fn)
                         (Block (ExpressionStatement (createCall (Identifier sigId) []) :: stmts)) in
         let _s := recordingStatement fnName sigId key forceReset customHooks in
         _sign (StatementNode (FunctionDeclaration fn))
           fnName sigId key forceReset customHooks =
           Some (StatementNode (FunctionDeclaration signed), _s) /\
         _sign (ExpressionNode (FunctionExpression src fn))
           fnName sigId key forceReset customHooks =
           Some (ExpressionNode (FunctionExpression "" signed), _s) /\
         _sign (ExpressionNode (ArrowFunction src fn))
           fnName sigId key forceReset customHooks =
           Some (ExpressionNode (ArrowFunction "" signed), _s)) /\
  (forall sf, transform sf <> Throw SignUndefined).
Proof.
  split.
  - intros fn sig Hsig. destruct (signature_block fn sig Hsig) as [stmts Hb].
    exists stmts. split; [done|]. intros fnName id k fr ch src. simpl.
    unfold _sign. simpl. rewrite Hb. done.
  - intros sf H. by apply transform_throw in H as [? _].
Qed.

(** *** Registration calls *)

Lemma isComponentishName_cons a rest :
  isComponentishName (String a rest) = upperAscii a.
Proof.
  unfold isComponentishName, JsString.charAt. simpl.
  destruct a as [[] [] [] [] [] [] [] []]; reflexivity.
Qed.

(** [isComponentishName] tests for a first character in [A]..[Z]. *)
Lemma isComponentishName_spec name :
  isComponentishName name = true <-> startsWithUppercase name.
Proof.
  unfold startsWithUppercase. destruct name as [|a rest].
  - split; [done|]. by intros (c & r & H & _).
  - rewrite isComponentishName_cons. unfold upperAscii.
    rewrite andb_true_iff, !Nat.leb_le. split.
    + intros H. by exists a, rest.
    + by intros (c & r & [= -> ->] & H).
Qed.

Lemma componentsOfDeclaration_In d name :
  In name (componentsOfDeclaration d) <->
  startsWithUppercase (text name) /\
  exists ex ty init src fn,
    d = mkVariableDeclaration (BindingIdentifier name) ex ty (Some init) /\
    (init = FunctionExpression src fn \/ init = ArrowFunction src fn).
Proof.
  rewrite <- isComponentishName_spec.
  unfold componentsOfDeclaration, declaredFunction, componentIf.
  destruct d as [[name'|src'] ex ty init].
  - destruct init as [init|]; simpl.
    + destruct init; simpl;
        try (split; [done|]; intros (_ & ? & ? & ? & ? & ? & [= _ _ _ <-] & [H|H]); done).
      * destruct (isComponentishName (text name')) eqn:Hc; simpl.
        -- split.
           ++ intros [<-|[]]. split; [done|]. by eexists _, _, _, _, _; split; [|left].
           ++ intros (_ & ? & ? & ? & ? & ? & [= -> _ _ _] & _). by left.
        -- split; [done|]. intros (Hn & ? & ? & ? & ? & ? & [= -> _ _ _] & _). congruence.
      * destruct (isComponentishName (text name')) eqn:Hc; simpl.
        -- split.
           ++ intros [<-|[]]. split; [done|]. by eexists _, _, _, _, _; split; [|right].
           ++ intros (_ & ? & ? & ? & ? & ? & [= -> _ _ _] & _). by left.
        -- split; [done|]. intros (Hn & ? & ? & ? & ? & ? & [= -> _ _ _] & _). congruence.
    + split; [done|]. by intros (_ & ? & ? & ? & ? & ? & [=] & _).
  - simpl. split; [done|]. by intros (_ & ? & ? & ? & ? & ? & [=] & _).
Qed.

(** C8. The output of a run ends with the registration calls, after the
    signature declaration and the blocks of the parsed statements: one
    new statement [$RefreshReg$(name, "name")] for each function declaration and for
    each declarator of a plain identifier with a function-expression or
    arrow-function initializer whose name starts with an uppercase ASCII
    letter, in the order of the declarations, and none for anything else. *)
Theorem registration_calls_follow_statements sf out :
  transform sf = Ok out ->
  (exists blocks,
     length blocks = length (statements sf) /\
     (forall i t, statements sf !! i = Some t ->
        exists b, blocks !! i = Some b /\
          rewriteStatement (sourceText sf) (scan sf)
            (mkItem (Some i) t) = Ok b) /\
     out = (signaturePrefix (scan sf) ++ concat blocks) ++
           map (fun name => synthesized (registrationCall name))
             (flat_map (fun t => componentsOfStatement (node t)) (statements sf))) /\
  (forall name,
     registrationCall name =
     ExpressionStatement (CallExpression "" (Identifier (parsedIdent "$RefreshReg$"))
       [Identifier name; StringLiteral (text name)])) /\
  (forall fn,
     componentsOfStatement (FunctionDeclaration fn) =
     match nameOf fn with
     | Some name => if isComponentishName (text name) then [name] else []
     | None => []
     end) /\
  (forall mods decls flags,
     componentsOfStatement (VariableStatement mods decls flags) =
     flat_map componentsOfDeclaration decls) /\
  (forall d, (length (componentsOfDeclaration d) <= 1)%nat) /\
  (forall d name,
     In name (componentsOfDeclaration d) <->
     startsWithUppercase (text name) /\
     exists ex ty init src fn,
       d = mkVariableDeclaration (BindingIdentifier name) ex ty (Some init) /\
       (init = FunctionExpression src fn \/ init = ArrowFunction src fn)) /\
  (forall s,
     match s with
     | FunctionDeclaration _ | VariableStatement _ _ _ => True
     | _ => componentsOfStatement s = []
     end) /\
  (forall name, isComponentishName name = true <-> startsWithUppercase name).
Proof.
  intros Ht. split; [|split; [|split; [|split; [|split; [|split; [|split]]]]]].
  - apply transform_ok_inv in Ht as (blocks & -> & Hlen & Hnth).
    exists blocks. split; [done|]. split; [done|].
    by rewrite components_scan, app_assoc.
  - done.
  - done.
  - done.
  - intros d. unfold componentsOfDeclaration, componentIf.
    destruct (declaredFunction d) as [[name fn]|]; simpl; [|lia].
    destruct (isComponentishName (text name)); simpl; lia.
  - apply componentsOfDeclaration_In.
  - by intros [].
  - apply isComponentishName_spec.
Qed.

(** *** The place of the statements *)

Lemma recordingOf_IsRecording st comment name entry :
  IsRecording (recordingOf st comment name entry).
Proof. unfold IsRecording, recordingOf. by eexists _, _, _, _, _. Qed.

Lemma recordingOf_RecordingFor sf p name entry sig :
  signatureOfEntry entry = sig ->
  RecordingFor sf p (name, sig)
    (recordingOf (scan sf) (forceResetComment (sourceText sf) p) name entry).
Proof. intros <-. by exists (sigId entry). Qed.

(** The declarators and the recording statements of one variable
    statement, from what holds of each declarator. *)
Lemma declarations_pointwise
    (f : nat -> VariableDeclaration -> VariableDeclaration * list Statement)
    (R : Ident * HookCallsSignature -> Statement -> Prop) decls : forall j,
  (forall n d, decls !! n = Some d ->
     RewrittenDeclarator d (fst (f (j + n) d)) /\
     Forall2 R (signedOfDeclaration d) (snd (f (j + n) d)) /\
     length (snd (f (j + n) d)) = length (option_list (signatureOfDeclaration d)) /\
     Forall IsRecording (snd (f (j + n) d))) ->
  let rs := mapi f j decls in
  Forall2 RewrittenDeclarator decls (map fst rs) /\
  Forall2 R (flat_map signedOfDeclaration decls) (concat (map snd rs)) /\
  length (concat (map snd rs)) =
    length (flat_map (fun d => option_list (signatureOfDeclaration d)) decls) /\
  Forall IsRecording (concat (map snd rs)).
Proof.
  induction decls as [|d decls IH]; intros j H; simpl.
  - repeat split; constructor.
  - destruct (IH (S j)) as (Hd & Hr & Hlen & Hall).
    { intros n d' Hn. replace (S j + n) with (j + S n) by lia. by apply H. }
    pose proof (H 0 d eq_refl) as H0. rewrite Nat.add_0_r in H0.
    destruct H0 as (Hd0 & Hr0 & Hlen0 & Hall0).
    split; [by constructor|]. split; [by apply Forall2_app|].
    split; [rewrite !length_app; lia|]. by apply Forall_app.
Qed.

Lemma declarations_block sf i t mods decls flags :
  statements sf !! i = Some t -> node t = VariableStatement mods decls flags ->
  let rs := mapi (rewrittenDeclaration (scan sf)
                    (forceResetComment (sourceText sf) (pos t)) i) 0 decls in
  Forall2 RewrittenDeclarator decls (map fst rs) /\
  Forall2 (RecordingFor sf (pos t)) (flat_map signedOfDeclaration decls) (concat (map snd rs)) /\
  length (concat (map snd rs)) =
    length (flat_map (fun d => option_list (signatureOfDeclaration d)) decls) /\
  Forall IsRecording (concat (map snd rs)).
Proof.
  intros Ht Hn. apply declarations_pointwise. intros n d Hd. simpl.
  destruct (signatureOfDeclaration d) as [sig|] eqn:Hsig.
  - destruct (rewrittenDeclaration_signed sf
      (forceResetComment (sourceText sf) (pos t)) i t mods decls flags n d sig Ht Hn Hd Hsig)
      as (name & fn & entry & stmts & ex & ty & init & Hdeq & Hdf & Hfi & Hb & He & Hes & ->).
    simpl. split; [|split; [|split]].
    + unfold RewrittenDeclarator. rewrite Hsig.
      by exists name, ex, ty, init, fn, stmts, (sigId entry).
    + unfold signedOfDeclaration. unfold signatureOfDeclaration in Hsig.
      rewrite Hdf in Hsig |- *. rewrite Hsig.
      constructor; [|constructor]. by apply recordingOf_RecordingFor.
    + done.
    + constructor; [|constructor]. apply recordingOf_IsRecording.
  - rewrite (rewrittenDeclaration_unsigned sf _ i t mods decls flags n d) by done.
    simpl. split; [|split; [|split]]; try done.
    + unfold RewrittenDeclarator. by rewrite Hsig.
    + unfold signedOfDeclaration. unfold signatureOfDeclaration in Hsig.
      destruct (declaredFunction d) as [[name fn]|]; [|constructor].
      rewrite Hsig. constructor.
Qed.

(** The block that replaces a parsed statement: the statement or the new
    statement that stands for it, then the recording statements of the
    signed functions it defines, in their order. *)
Lemma block_of_statement sf i t b :
  statements sf !! i = Some t ->
  rewriteStatement (sourceText sf) (scan sf) (mkItem (Some i) t) = Ok b ->
  exists head recs,
    b = head :: map synthesized recs /\
    HeadOfBlock i t head /\
    Forall2 (RecordingFor sf (pos t)) (signedFunctionsOf (node t)) recs /\
    length recs = length (signaturesOfStatement (node t)) /\
    Forall IsRecording recs.
Proof.
  intros Ht Hb. unfold HeadOfBlock.
  destruct (node t) as [fn|mods decls flags|x|c m|x|src] eqn:Hn.
  - simpl. destruct (_getHookCallsSignature fn) as [sig|] eqn:Hsig.
    + destruct (rewriteStatement_function_signed sf i t fn sig Ht Hn Hsig)
        as (entry & stmts & _ & Hes & Hbody & Hr).
      rewrite Hr in Hb. destruct (nameOf fn) as [name|] eqn:Hname; [|done].
      injection Hb as <-.
      eexists _, [_]. split; [done|]. split; [|split; [|split]].
      * exists (sigId entry), stmts. split; [done|].
        unfold signedFunction. by rewrite Hname.
      * constructor; [|constructor]. by apply recordingOf_RecordingFor.
      * done.
      * constructor; [|constructor]. apply recordingOf_IsRecording.
    + rewrite (rewriteStatement_function_unsigned sf i t fn) in Hb by done.
      injection Hb as <-. exists (mkItem (Some i) t), [].
      split; [done|]. split; [done|]. split; [|by split].
      destruct (nameOf fn); constructor.
  - rewrite (rewriteStatement_variable sf i t mods decls flags) in Hb by done.
    injection Hb as <-.
    destruct (declarations_block sf i t mods decls flags Ht Hn) as (Hd & Hr & Hlen & Hall).
    eexists _, _. split; [done|]. split; [|by split].
    eexists. split; [exact Hd|done].
  - rewrite rewriteStatement_other in Hb by (by rewrite Hn).
    injection Hb as <-. exists (mkItem (Some i) t), []. repeat split; constructor.
  - rewrite rewriteStatement_other in Hb by (by rewrite Hn).
    injection Hb as <-. exists (mkItem (Some i) t), []. repeat split; constructor.
  - rewrite rewriteStatement_other in Hb by (by rewrite Hn).
    injection Hb as <-. exists (mkItem (Some i) t), []. repeat split; constructor.
  - rewrite rewriteStatement_other in Hb by (by rewrite Hn).
    injection Hb as <-. exists (mkItem (Some i) t), []. repeat split; constructor.
Qed.




(** *** Keys *)

Lemma join_app_cons sep A x R :
  JsString.join sep (A ++ x :: R) = joinPrefix sep A +:+ x +:+ joinSuffix sep R.
Proof.
  induction A as [|a A IH].
  - simpl. destruct R as [|r R]; simpl; [by rewrite app_nil_right|done].
  - change (JsString.join sep ((a :: A) ++ x :: R))
      with (JsString.join sep (a :: (A ++ x :: R))).
    assert (JsString.join sep (a :: (A ++ x :: R)) =
            a +:+ sep +:+ JsString.join sep (A ++ x :: R)) as ->.
    { simpl. by destruct (A ++ x :: R) eqn:E; [destruct A; discriminate|]. }
    rewrite IH. simpl. by rewrite !app_assoc_string.
Qed.

Lemma appendArgument_fragment name args k :
  appendArgument name args k = k +:+ argKeyFragment name args.
Proof.
  unfold argKeyFragment, appendArgument.
  destruct (String.eqb name "useState" && Nat.ltb 0 (length args)); [done|].
  destruct (String.eqb name "useReducer" && Nat.ltb 1 (length args)); [done|].
  by rewrite app_nil_right.
Qed.

Lemma hookCallSignature_spec parent e args call :
  _getHookCallSignature parent e args = Some call <->
  calleeName e = Some (callName call) /\
  isHookName (callName call) = true /\
  callKey call = bindingKey parent +:+ argKeyFragment (callName call) args.
Proof.
  unfold _getHookCallSignature. destruct (calleeName e) as [name|].
  - destruct (isHookName name) eqn:Hh; simpl.
    + rewrite appendArgument_fragment. split.
      * intros [= <-]. done.
      * intros ([= ->] & _ & Hk). destruct call as [n k]. simpl in *. by rewrite Hk.
    + split; [done|]. intros ([= ->] & Hh' & _). congruence.
  - split; [done|]. by intros ([=] & _).
Qed.

(** C3, as the code has it. The call sites of a direct statement of a body
    are the hook calls that are the initializer of a declarator of a
    variable statement, of one declarator or of several, and the hook call
    of an expression statement.  The binding key of a call site is the
    text of the name of its declarator in the first case and is empty in
    the second; the key of the call site is the binding key followed by
    the argument fragment. *)
Theorem binding_key_of_call_site s call :
  In call (hookCallsOfStatement s) <->
  (exists mods decls flags n ex ty src e args,
     s = VariableStatement mods decls flags /\
     In (mkVariableDeclaration n ex ty (Some (CallExpression src e args))) decls /\
     calleeName e = Some (callName call) /\
     isHookName (callName call) = true /\
     bindingKey (ParentVariableDeclaration
       (mkVariableDeclaration n ex ty (Some (CallExpression src e args)))) = getNameText n /\
     callKey call = getNameText n +:+ argKeyFragment (callName call) args) \/
  (exists src e args,
     s = ExpressionStatement (CallExpression src e args) /\
     calleeName e = Some (callName call) /\
     isHookName (callName call) = true /\
     bindingKey ParentExpressionStatement = "" /\
     callKey call = argKeyFragment (callName call) args).
Proof.
  split.
  - destruct s as [fn|mods decls flags|x|c m|x|src]; simpl; try done.
    + intros H. apply in_flat_map in H as (d & Hd & Hc). left.
      destruct d as [n ex ty [init|]]; [|done].
      destruct init as [| |src e args| | | | | | |]; try done.
      simpl in Hc.
      destruct (_getHookCallSignature _ e args) as [c|] eqn:Hs; [|done].
      destruct Hc as [->|[]].
      apply hookCallSignature_spec in Hs as (Hn & Hh & Hk).
      by exists mods, decls, flags, n, ex, ty, src, e, args.
    + intros H. right.
      destruct x as [| |src e args| | | | | | |]; try done.
      simpl in H.
      destruct (_getHookCallSignature _ e args) as [c|] eqn:Hs; [|done].
      destruct H as [->|[]].
      apply hookCallSignature_spec in Hs as (Hn & Hh & Hk).
      by exists src, e, args.
  - intros [(mods & decls & flags & n & ex & ty & src & e & args & -> & Hd & Hn & Hh & _ & Hk)
           |(src & e & args & -> & Hn & Hh & _ & Hk)]; simpl.
    + apply in_flat_map. eexists. split; [exact Hd|]. simpl.
      assert (_getHookCallSignature (ParentVariableDeclaration
        (mkVariableDeclaration n ex ty (Some (CallExpression src e args)))) e args = Some call)
        as -> by (by apply hookCallSignature_spec).
      by left.
    + assert (_getHookCallSignature ParentExpressionStatement e args = Some call)
        as -> by (by apply hookCallSignature_spec).
      by left.
Qed.

Lemma seedIndex_hook name n : seedIndex name = Some n -> isHookName name = true.
Proof.
  unfold seedIndex.
  destruct (String.eqb_spec name "useState") as [->|_]; [done|].
  destruct (String.eqb_spec name "useReducer") as [->|_]; [done|done].
Qed.

Lemma appendArgument_seed name n args a k :
  seedIndex name = Some n -> args !! n = Some a ->
  appendArgument name args k = k +:+ "(" +:+ getText a +:+ ")".
Proof.
  unfold seedIndex, appendArgument, argText. intros Hn Ha.
  pose proof (lookup_lt_Some _ _ _ Ha) as Hlt.
  destruct (String.eqb name "useState").
  - injection Hn as <-. rewrite Ha.
    by replace (Nat.ltb 0 (length args)) with true by (symmetry; apply Nat.ltb_lt; lia).
  - destruct (String.eqb name "useReducer"); [|done].
    injection Hn as <-. rewrite Ha. simpl.
    by replace (Nat.ltb 1 (length args)) with true by (symmetry; apply Nat.ltb_lt; lia).
Qed.

(** The call site of a [useState] or [useReducer] call. *)
Lemma seed_call_site parent e name n args a :
  calleeName e = Some name -> seedIndex name = Some n -> args !! n = Some a ->
  _getHookCallSignature parent e args =
  Some (mkHookCall name (bindingKey parent +:+ "(" +:+ getText a +:+ ")")).
Proof.
  intros He Hn Ha. unfold _getHookCallSignature.
  rewrite He, (seedIndex_hook name n Hn). simpl.
  by rewrite (appendArgument_seed name n args a).
Qed.

Lemma keyLine_seed name bk t :
  keyLine (mkHookCall name (bk +:+ "(" +:+ t +:+ ")")) =
  (name +:+ "{" +:+ bk +:+ "(") +:+ t +:+ (")" +:+ "}").
Proof. unfold keyLine. simpl. by rewrite !app_assoc_string. Qed.

(** The call sites of the two statements of an edit differ in one call
    site, and there in the text of the argument only. *)
Lemma edit_call_sites s s' :
  EditsSeedArgument s s' ->
  exists A B name bk t t',
    t <> t' /\
    hookCallsOfStatement s = A ++ mkHookCall name (bk +:+ "(" +:+ t +:+ ")") :: B /\
    hookCallsOfStatement s' = A ++ mkHookCall name (bk +:+ "(" +:+ t' +:+ ")") :: B.
Proof.
  intros [src src' e name n args a a' He Hn Ha Hne
         |mods flags before after nm ex ty src src' e name n args a a' He Hn Ha Hne].
  - exists [], [], name, "", (getText a), (getText a'). split; [done|].
    pose proof (lookup_lt_Some _ _ _ Ha) as Hlt. simpl.
    rewrite (seed_call_site _ e name n args a) by done.
    rewrite (seed_call_site _ e name n (<[n:=a']> args) a')
      by (try done; by apply list_lookup_insert_eq).
    done.
  - exists (flat_map hookCallsOfDeclaration before), (flat_map hookCallsOfDeclaration after),
      name, (getNameText nm), (getText a), (getText a'). split; [done|].
    pose proof (lookup_lt_Some _ _ _ Ha) as Hlt. simpl.
    rewrite !flat_map_app. simpl.
    rewrite (seed_call_site _ e name n args a) by done.
    rewrite (seed_call_site _ e name n (<[n:=a']> args) a')
      by (try done; by apply list_lookup_insert_eq).
    done.
Qed.

Lemma bodyHookCalls_block head name stmts :
  bodyHookCalls (mkFunction head name (Block stmts)) = flat_map hookCallsOfStatement stmts.
Proof. reflexivity. Qed.

Lemma signature_of_calls fn c L R :
  bodyHookCalls fn = L ++ c :: R ->
  _getHookCallsSignature fn =
  Some (mkHookCallsSignature
    (JsString.join JsString.LF (map keyLine (L ++ c :: R)))
    (map callName (List.filter (fun call => negb (isBuiltinHook (callName call))) (L ++ c :: R)))).
Proof.
  intros H. unfold _getHookCallsSignature. rewrite H.
  by destruct L.
Qed.

(** C5. In a function body, changing only the source text of the first
    argument of a direct [useState] call, or of the second argument of a
    direct [useReducer] call, changes the key of the function: both
    versions have a signature, with different keys and the same custom
    hooks. *)
Theorem seed_argument_changes_key s s' head name before after :
  EditsSeedArgument s s' ->
  exists sig sig',
    _getHookCallsSignature (mkFunction head name (Block (before ++ s :: after))) = Some sig /\
    _getHookCallsSignature (mkFunction head name (Block (before ++ s' :: after))) = Some sig' /\
    key sig <> key sig' /\
    customHooks sig = customHooks sig'.
Proof.
  intros He. destruct (edit_call_sites s s' He) as (A & B & hook & bk & t & t' & Hne & Hs & Hs').
  set (L := flat_map hookCallsOfStatement before ++ A).
  set (R := B ++ flat_map hookCallsOfStatement after).
  eexists _, _. split; [|split].
  - apply (signature_of_calls _ (mkHookCall hook (bk +:+ "(" +:+ t +:+ ")")) L R).
    rewrite bodyHookCalls_block, flat_map_app. simpl. rewrite Hs.
    unfold L, R. by rewrite <- !app_assoc.
  - apply (signature_of_calls _ (mkHookCall hook (bk +:+ "(" +:+ t' +:+ ")")) L R).
    rewrite bodyHookCalls_block, flat_map_app. simpl. rewrite Hs'.
    unfold L, R. by rewrite <- !app_assoc.
  - simpl. split.
    + rewrite !map_app. simpl. rewrite !join_app_cons, !keyLine_seed.
      rewrite !app_assoc_string. intros Heq.
      repeat apply app_inv_head_string in Heq.
      by apply app_inv_tail_string in Heq.
    + rewrite !List.filter_app. simpl. rewrite !map_app.
      by destruct (negb (isBuiltinHook hook)).
Qed.

Lemma noLineBreak_cons a x : noLineBreak (String a x) -> noLineBreak x.
Proof.
  unfold noLineBreak. rewrite includes_cons. intros H.
  by apply orb_false_iff in H as [_ H].
Qed.

Lemma noLineBreak_head a x : noLineBreak (String a x) -> a <> ascii_of_nat 10.
Proof.
  unfold noLineBreak. rewrite includes_cons. intros H.
  apply orb_false_iff in H as [H _]. intros ->. by destruct x.
Qed.

(** Two strings without line break that are each followed by a line break
    in the same text are equal. *)
Lemma first_line_unique x : forall y r r',
  noLineBreak x -> noLineBreak y ->
  x +:+ JsString.LF +:+ r = y +:+ JsString.LF +:+ r' -> x = y.
Proof.
  induction x as [|a x IH]; intros [|b y] r r' Hx Hy H.
  - done.
  - apply noLineBreak_head in Hy. injection H as H _. congruence.
  - apply noLineBreak_head in Hx. injection H as H _. congruence.
  - rewrite !app_cons in H. injection H as -> H. f_equal.
    apply (IH y r r'); [by eapply noLineBreak_cons..|done].
Qed.

Lemma lineBreak_after_prefix x r : ~ noLineBreak (x +:+ JsString.LF +:+ r).
Proof.
  unfold noLineBreak. intros H.
  assert (JsString.includes (x +:+ JsString.LF +:+ r) JsString.LF = true) as Ht
    by (apply includes_spec; eauto).
  congruence.
Qed.

(** Two strings that are each followed by a line break in the same text
    are equal, or one of them starts with the other and a line break. *)
Lemma first_line_cases x : forall y r r',
  x +:+ JsString.LF +:+ r = y +:+ JsString.LF +:+ r' ->
  x = y \/ startsWith y (x +:+ JsString.LF) \/ startsWith x (y +:+ JsString.LF).
Proof.
  induction x as [|a x IH]; intros [|b y] r r' H.
  - by left.
  - right. left. injection H as <- _. by exists y.
  - right. right. injection H as -> _. by exists x.
  - rewrite !app_cons in H. injection H as -> H.
    destruct (IH y r r' H) as [->|[[q ->]|[q ->]]].
    + by left.
    + right. left. by exists q.
    + right. right. by exists q.
Qed.

Lemma joinSuffix_app_cons sep A x R :
  joinSuffix sep (A ++ x :: R) = sep +:+ joinPrefix sep A +:+ x +:+ joinSuffix sep R.
Proof.
  unfold joinSuffix at 1. destruct (A ++ x :: R) eqn:E; [by destruct A|].
  rewrite <- E. by rewrite join_app_cons.
Qed.

(** The key of a body in which the call sites [c1] and [c2] are met in
    this order. *)
Lemma key_of_two_calls A c1 M c2 B :
  JsString.join JsString.LF (map keyLine (A ++ c1 :: M ++ c2 :: B)) =
  joinPrefix JsString.LF (map keyLine A) +:+
  (keyLine c1 +:+ linesBetween M +:+ keyLine c2) +:+
  joinSuffix JsString.LF (map keyLine B).
Proof.
  rewrite map_app. simpl. rewrite map_app. simpl.
  rewrite join_app_cons, joinSuffix_app_cons. unfold linesBetween.
  by rewrite !app_assoc_string.
Qed.

(** C6, as the code has it. When two call sites of a body are exchanged,
    both versions have a signature.  The keys are equal exactly when the
    text made of the line of the first call site, the lines between the
    two and the line of the second reads the same with the two lines
    exchanged.  So the keys are equal when the two lines are equal, and
    they differ when the lines differ and neither line, followed by a
    line break, is the beginning of the other: in particular when the
    lines differ and contain no line break, or differ and have the same
    length. *)
Theorem swapped_calls_change_key fn fn' A c1 M c2 B :
  bodyHookCalls fn = A ++ c1 :: M ++ c2 :: B ->
  bodyHookCalls fn' = A ++ c2 :: M ++ c1 :: B ->
  exists sig sig',
    _getHookCallsSignature fn = Some sig /\
    _getHookCallsSignature fn' = Some sig' /\
    (key sig = key sig' <->
     keyLine c1 +:+ linesBetween M +:+ keyLine c2 =
     keyLine c2 +:+ linesBetween M +:+ keyLine c1) /\
    (keyLine c1 = keyLine c2 -> key sig = key sig') /\
    (keyLine c1 <> keyLine c2 ->
     ~ startsWith (keyLine c2) (keyLine c1 +:+ JsString.LF) ->
     ~ startsWith (keyLine c1) (keyLine c2 +:+ JsString.LF) ->
     key sig <> key sig') /\
    (keyLine c1 <> keyLine c2 ->
     noLineBreak (keyLine c1) -> noLineBreak (keyLine c2) ->
     key sig <> key sig') /\
    (keyLine c1 <> keyLine c2 ->
     String.length (keyLine c1) = String.length (keyLine c2) ->
     key sig <> key sig').
Proof.
  intros H1 H2.
  eexists _, _. split; [|split].
  - by apply (signature_of_calls fn c1 A (M ++ c2 :: B)).
  - by apply (signature_of_calls fn' c2 A (M ++ c1 :: B)).
  - simpl. rewrite !key_of_two_calls.
    assert (joinPrefix JsString.LF (map keyLine A) +:+
            (keyLine c1 +:+ linesBetween M +:+ keyLine c2) +:+
            joinSuffix JsString.LF (map keyLine B) =
            joinPrefix JsString.LF (map keyLine A) +:+
            (keyLine c2 +:+ linesBetween M +:+ keyLine c1) +:+
            joinSuffix JsString.LF (map keyLine B) <->
            keyLine c1 +:+ linesBetween M +:+ keyLine c2 =
            keyLine c2 +:+ linesBetween M +:+ keyLine c1) as Hiff.
    { split.
      - intros H. apply app_inv_head_string in H. by apply app_inv_tail_string in H.
      - by intros ->. }
    assert (keyLine c1 <> keyLine c2 ->
            ~ startsWith (keyLine c2) (keyLine c1 +:+ JsString.LF) ->
            ~ startsWith (keyLine c1) (keyLine c2 +:+ JsString.LF) ->
            keyLine c1 +:+ linesBetween M +:+ keyLine c2 <>
            keyLine c2 +:+ linesBetween M +:+ keyLine c1) as Hne.
    { intros Hd Hp1 Hp2 H. unfold linesBetween in H. rewrite !app_assoc_string in H.
      by destruct (first_line_cases _ _ _ _ H) as [?|[?|?]]. }
    split; [exact Hiff|]. split; [|split; [|split]].
    + intros Heq. apply Hiff. by rewrite Heq.
    + intros Hd Hp1 Hp2 H. apply Hiff in H. by apply Hne in H.
    + intros Hd Hn1 Hn2 H. apply Hiff in H. apply Hne in H; [done|done|..].
      * intros [q Hq]. rewrite Hq, app_assoc_string in Hn2.
        by apply lineBreak_after_prefix in Hn2.
      * intros [q Hq]. rewrite Hq, app_assoc_string in Hn1.
        by apply lineBreak_after_prefix in Hn1.
    + intros Hd Hl H. apply Hiff in H. apply Hne in H; [done|done|..].
      * intros [q Hq]. rewrite Hq, !length_app_string in Hl. simpl in Hl. lia.
      * intros [q Hq]. rewrite Hq, !length_app_string in Hl. simpl in Hl. lia.
Qed.

End Properties.

(** ** The properties on the examples *)

Section Examples.

Import Example.

#[local] Existing Instance library.

Lemma counter_is_signed sf p :
  statements sf !! 0 = Some (mkTopLevel p counter) ->
  SignedFunction sf (FunctionKey 0) (parsedIdent "Counter") p counterSignature.
Proof.
  intros H.
  apply (SignedDeclaration sf 0 (mkTopLevel p counter) counterFunction
           (parsedIdent "Counter") counterSignature); [exact H|reflexivity..].
Qed.

(** C2 fails as stated: in the example module [Counter] calls [useMyHook],
    which is declared by the statement after it; [useMyHook] is in the
    hook-name set when the custom hooks of [Counter] are resolved, the
    recording call keeps it and passes [false] for forceReset, and no
    recording call of the output passes [true]. *)
Lemma forward_reference_counterexample :
  SignedFunction module (FunctionKey 0) (parsedIdent "Counter") 0 counterSignature /\
  In "useMyHook" (customHooks counterSignature) /\
  (exists t, statements module !! 1 = Some t /\ node t = useMyHook /\
             BindsName (node t) "useMyHook") /\
  "useMyHook" ∈ seenHooks (scan module) /\
  resolveCustomHooks (scan module) (customHooks counterSignature) = ["useMyHook"] /\
  transform module = Ok output /\
  In (synthesized (recordingStatement "Counter" s0 counterKey false ["useMyHook"])) output /\
  ~ (exists sigId emitted,
       In (synthesized (recordingStatement "Counter" sigId counterKey true emitted)) output).
Proof.
  split; [by apply counter_is_signed|].
  split; [by left|].
  split.
  { eexists; split; [reflexivity|split; [reflexivity|]].
    exact (BindsFunction
             (mkFunction noHead (Some (parsedIdent "useMyHook"))
                (Block [ReturnStatement (OtherExpression "1")]))
             (parsedIdent "useMyHook") eq_refl). }
  split; [apply seenHooks_scan; vm_compute; auto|].
  split; [vm_compute; reflexivity|].
  split; [vm_compute; reflexivity|].
  split; [right; right; by left|].
  intros (sigId & emitted & H).
  unfold output, recordingStatement in H. simpl in H.
  destruct H as [H|[H|[H|[H|[H|[]]]]]]; discriminate H.
Qed.

(** C3 fails as stated: in [const a = useA(), b = useB()] both call sites
    have the name of their declarator as binding key. *)
Lemma multi_declarator_counterexample :
  hookCallsOfStatement twoDeclarators = [mkHookCall "useA" "a"; mkHookCall "useB" "b"] /\
  bindingKey (ParentVariableDeclaration declaratorA) = "a" /\
  bindingKey (ParentVariableDeclaration declaratorB) = "b" /\
  "a" <> "" /\ "b" <> "" /\
  _getHookCallsSignature pairFunction =
    Some (mkHookCallsSignature ("useA{a}" +:+ JsString.LF +:+ "useB{b}") ["useA"; "useB"]).
Proof. repeat split; discriminate. Qed.

(** C6 fails as stated: [useEffect(f); useEffect(g)] and
    [useEffect(g); useEffect(f)] have the same key. *)
Lemma equal_lines_counterexample :
  effectF <> effectG /\
  bodyOf effectsFG = Block [effectF; effectG] /\
  bodyOf effectsGF = Block [effectG; effectF] /\
  hookCallsOfStatement effectF = [mkHookCall "useEffect" ""] /\
  hookCallsOfStatement effectG = [mkHookCall "useEffect" ""] /\
  _getHookCallsSignature effectsFG =
    Some (mkHookCallsSignature ("useEffect{}" +:+ JsString.LF +:+ "useEffect{}") []) /\
  _getHookCallsSignature effectsGF = _getHookCallsSignature effectsFG.
Proof. repeat split; discriminate. Qed.

(** Why the key of two exchanged call sites can stay the same although
    their lines differ: on texts that are not held to be patterns of the
    language, one line can be the other, a line break and the other
    again. *)
Lemma differing_lines_same_key_example :
  hookCallsOfStatement callA = [mkHookCall "useA" ""] /\
  hookCallsOfStatement callATwice = [mkHookCall "useA" ("}" +:+ JsString.LF +:+ "useA{")] /\
  keyLine (mkHookCall "useA" "") <> keyLine (mkHookCall "useA" ("}" +:+ JsString.LF +:+ "useA{")) /\
  startsWith (keyLine (mkHookCall "useA" ("}" +:+ JsString.LF +:+ "useA{")))
    (keyLine (mkHookCall "useA" "") +:+ JsString.LF) /\
  _getHookCallsSignature (mkFunction noHead None (Block [callA; callATwice])) =
  _getHookCallsSignature (mkFunction noHead None (Block [callATwice; callA])).
Proof.
  split; [reflexivity|]. split; [reflexivity|]. split; [discriminate|].
  split; [by exists "useA{}"|reflexivity].
Qed.


(** C3, as the code has it, on [const a = useA(), b = useB()]. *)
Lemma binding_key_of_call_site_example :
  In (mkHookCall "useB" "b") (hookCallsOfStatement twoDeclarators).
Proof.
  apply (proj2 (binding_key_of_call_site twoDeclarators (mkHookCall "useB" "b"))).
  left.
  exists [], [declaratorA; declaratorB], NodeFlags_Const,
    (BindingIdentifier (parsedIdent "b")), false, None, "useB()",
    (createIdentifier "useB"), [].
  repeat split; simpl; auto.
Defined.

(** C4 on the module made of [Counter] alone. *)
Lemma unresolved_custom_hook_example :
  exists sigId emitted,
    emitted = resolveCustomHooks (scan counterAlone) (customHooks counterSignature) /\
    ~ In "useMyHook" emitted /\
    In (synthesized (recordingStatement (text (parsedIdent "Counter")) sigId
          (key counterSignature) true emitted)) outputAlone /\
    recordingStatement (text (parsedIdent "Counter")) sigId (key counterSignature) true emitted =
      ExpressionStatement (createCall (Identifier sigId)
        ([createIdentifier (text (parsedIdent "Counter"));
          StringLiteral (key counterSignature); TrueKeyword] ++
         (if Nat.ltb 0 (length emitted) then [getCustomHooks emitted] else []))).
Proof.
  apply (unresolved_custom_hook_forces_reset counterAlone (FunctionKey 0)
           (parsedIdent "Counter") 0 counterSignature "useMyHook" outputAlone).
  - apply counter_is_signed. reflexivity.
  - simpl. auto.
  - rewrite seenHooks_scan. vm_compute. tauto.
  - vm_compute. reflexivity.
Defined.

(** C5 on [Counter]: the initial state [0] changed to [1]. *)
Lemma seed_argument_changes_key_example :
  exists sig sig',
    _getHookCallsSignature counterFunction = Some sig /\
    _getHookCallsSignature counterFromOne = Some sig' /\
    key sig <> key sig' /\
    customHooks sig = customHooks sig'.
Proof.
  apply (seed_argument_changes_key _ _ noHead (Some (parsedIdent "Counter")) []
    [ ExpressionStatement (CallExpression "useMyHook()" (createIdentifier "useMyHook") []);
      ReturnStatement (OtherExpression "null") ]
    (EditsDeclarator [] NodeFlags_Const [] [] (BindingPattern "[n,setN]") false None
       "useState(0)" "useState(1)" (createIdentifier "useState") "useState" 0
       [OtherExpression "0"] (OtherExpression "0") (OtherExpression "1")
       eq_refl eq_refl eq_refl ltac:(discriminate))).
Defined.

(** C6, as the code has it, on [Counter]: its two hook statements swapped. *)
Lemma swapped_calls_change_key_example :
  exists sig sig',
    _getHookCallsSignature counterFunction = Some sig /\
    _getHookCallsSignature counterSwapped = Some sig' /\
    (key sig = key sig' <->
     "useState{[n,setN](0)}" +:+ linesBetween [] +:+ "useMyHook{}" =
     "useMyHook{}" +:+ linesBetween [] +:+ "useState{[n,setN](0)}") /\
    key sig <> key sig'.
Proof.
  destruct (swapped_calls_change_key counterFunction counterSwapped []
    (mkHookCall "useState" "[n,setN](0)") [] (mkHookCall "useMyHook" "") [] eq_refl eq_refl)
    as (sig & sig' & H1 & H2 & Hiff & _ & Hne & _).
  exists sig, sig'. split; [exact H1|]. split; [exact H2|]. split; [exact Hiff|].
  apply Hne.
  - discriminate.
  - intros [q Hq]. discriminate Hq.
  - intros [q Hq]. discriminate Hq.
Defined.

(** C7 on the example module with [/* @refresh reset */] in front. *)
Lemma reset_comment_forces_reset_example :
  exists sigId,
    let emitted :=
      resolveCustomHooks (scan (lib := resetLibrary) moduleWithReset)
        (customHooks counterSignature) in
    In (synthesized (recordingStatement (text (parsedIdent "Counter")) sigId
          (key counterSignature) true emitted)) (outputWithReset (lib := resetLibrary)) /\
    recordingStatement (text (parsedIdent "Counter")) sigId (key counterSignature) true emitted =
      ExpressionStatement (createCall (Identifier sigId)
        ([createIdentifier (text (parsedIdent "Counter"));
          StringLiteral (key counterSignature); TrueKeyword] ++
         (if Nat.ltb 0 (length emitted) then [getCustomHooks emitted] else []))).
Proof.
  apply (reset_comment_forces_reset (lib := resetLibrary) moduleWithReset (FunctionKey 0)
           (parsedIdent "Counter") 0 counterSignature (outputWithReset (lib := resetLibrary))
           [mkCommentRange 0 (String.length resetComment)]
           (mkCommentRange 0 (String.length resetComment))).
  - apply counter_is_signed. reflexivity.
  - reflexivity.
  - simpl. auto.
  - vm_compute. reflexivity.
  - vm_compute. reflexivity.
Defined.

(** C8 on the example module. *)
Lemma registration_calls_example :
  exists blocks,
    length blocks = length (statements module) /\
    (forall i t, statements module !! i = Some t ->
       exists b, blocks !! i = Some b /\
         rewriteStatement (sourceText module) (scan module)
           (mkItem (Some i) t) = Ok b) /\
    output = (signaturePrefix (scan module) ++ concat blocks) ++
             map (fun name => synthesized (registrationCall name))
               (flat_map (fun t => componentsOfStatement (node t)) (statements module)).
Proof.
  refine (proj1 (registration_calls_follow_statements module output _)).
  vm_compute. reflexivity.
Defined.


(** C10 on [Counter]. *)
Lemma signed_function_has_block_body_example :
  exists stmts,
    bodyOf counterFunction = Block stmts /\
    forall fnName sigId key forceReset customHooks src,
      let signed := mkFunction (headOf counterFunction) (nameOf counterFunction)
                      (Block (ExpressionStatement (createCall (Identifier sigId) []) :: stmts)) in
      let _s := recordingStatement fnName sigId key forceReset customHooks in
      _sign (StatementNode (FunctionDeclaration counterFunction))
        fnName sigId key forceReset customHooks =
        Some (StatementNode (FunctionDeclaration signed), _s) /\
      _sign (ExpressionNode (FunctionExpression src counterFunction))
        fnName sigId key forceReset customHooks =
        Some (ExpressionNode (FunctionExpression "" signed), _s) /\
      _sign (ExpressionNode (ArrowFunction src counterFunction))
        fnName sigId key forceReset customHooks =
        Some (ExpressionNode (ArrowFunction "" signed), _s).
Proof.
  apply (proj1 signed_function_has_block_body counterFunction counterSignature).
  reflexivity.
Defined.

End Examples.

(** ** Further properties of the name tests and of the scan *)

Section NameProperties.

Context {lib : TypeScript}.

Lemma isHookName_use q :
  isHookName ("use" +:+ q) = JsString.truthy (JsString.charAt 0 q) && isComponentishName q.
Proof.
  unfold isHookName, isComponentishName, JsString.startsWith.
  assert (String.prefix "use" ("use" +:+ q) = true) as -> by (apply prefix_spec; eauto).
  assert (JsString.charAt 3 ("use" +:+ q) = JsString.charAt 0 q) as -> by reflexivity.
  simpl. by rewrite andb_assoc.
Qed.

Lemma isHookName_prefix name :
  isHookName name = true -> exists q, name = "use" +:+ q.
Proof.
  intros H. apply prefix_spec.
  unfold isHookName, JsString.startsWith in H.
  by destruct (String.prefix "use" name).
Qed.

(** X1. [isHookName] holds exactly of the names made of [use], an
    uppercase ASCII letter, and any rest: [use] alone, [user] and [Use...]
    are not hook names. *)
Theorem isHookName_spec name :
  isHookName name = true <->
  exists c rest, name = "use" +:+ String c rest /\ (65 <= nat_of_ascii c <= 90)%nat.
Proof.
  split.
  - intros H. destruct (isHookName_prefix name H) as [q ->].
    rewrite isHookName_use in H.
    destruct q as [|c rest]; [done|]. simpl in H.
    apply isComponentishName_spec in H as (c' & rest' & [= <- <-] & Hc).
    by exists c, rest.
  - intros (c & rest & -> & Hc). rewrite isHookName_use. simpl.
    apply isComponentishName_spec. by exists c, rest.
Qed.

Lemma hookName_not_componentish name :
  isHookName name = true -> isComponentishName name = false.
Proof.
  intros H. destruct (isHookName_prefix name H) as [q ->]. reflexivity.
Qed.

Lemma componentsOfStatement_componentish s name :
  In name (componentsOfStatement s) -> isComponentishName (text name) = true.
Proof.
  destruct s as [fn|mods decls flags|e|c m|e|src]; simpl; try done.
  - destruct (nameOf fn) as [id|]; [|done]. unfold componentIf.
    destruct (isComponentishName (text id)) eqn:Hc; [|done]. by intros [<-|[]].
  - intros H. apply in_flat_map in H as (d & _ & H).
    unfold componentsOfDeclaration, componentIf in H.
    destruct (declaredFunction d) as [[id fn]|]; [|done].
    destruct (isComponentishName (text id)) eqn:Hc; [|done]. by destruct H as [<-|[]].
Qed.

Lemma importedHookNames_In c h :
  In h (importedHookNames (Some c)) <->
  isHookName h = true /\
  ((exists id, clauseName c = Some id /\ text id = h) \/
   (exists elements sp, namedBindings c = Some (NamedImports elements) /\
      In sp elements /\ text (specifierName sp) = h)).
Proof.
  unfold importedHookNames. rewrite in_app_iff. split.
  - intros [H|H].
    + destruct (clauseName c) as [id|]; [|done].
      destruct (isHookName (text id)) eqn:Hh; [|done].
      destruct H as [<-|[]]. split; [done|]. left. by exists id.
    + destruct (namedBindings c) as [[id|elements]|]; try done.
      apply filter_In in H as [H Hh]. apply in_map_iff in H as (sp & <- & Hsp).
      split; [done|]. right. by exists elements, sp.
  - intros [Hh [(id & Hid & <-)|(elements & sp & Hn & Hsp & <-)]].
    + left. rewrite Hid, Hh. by left.
    + right. rewrite Hn. apply filter_In. split; [|done].
      apply in_map_iff. by exists sp.
Qed.

Lemma hookNamesOfStatement_In s h :
  In h (hookNamesOfStatement s) <-> isHookName h = true /\ BindsName s h.
Proof.
  destruct s as [fn|mods decls flags|e|c m|e|src]; simpl;
    try (split; [done|]; intros [_ H]; inversion H).
  - unfold hookNameIf. split.
    + destruct (nameOf fn) as [id|] eqn:Hid; [|done].
      destruct (isHookName (text id)) eqn:Hh; [|done].
      intros [<-|[]]. split; [done|]. by constructor.
    + intros [Hh H]. inversion H as [fn' id Hid| | |]; subst.
      rewrite Hid, Hh. by left.
  - rewrite in_flat_map. unfold hookNamesOfDeclaration, hookNameIf. split.
    + intros (d & Hd & H).
      destruct (declaredFunction d) as [[id fn]|] eqn:Hdf; [|done].
      destruct (isHookName (text id)) eqn:Hh; [|done].
      destruct H as [<-|[]]. split; [done|]. by econstructor.
    + intros [Hh H]. inversion H as [|? ? ? d id fn Hd Hdf| |]; subst.
      exists d. split; [done|]. rewrite Hdf, Hh. by left.
  - destruct c as [c|].
    + rewrite importedHookNames_In. split.
      * intros [Hh [(id & Hid & <-)|(elements & sp & Hn & Hsp & <-)]];
          (split; [done|]); [by constructor|by econstructor].
      * intros [Hh H]. split; [done|].
        inversion H as [| |? ? id Hid|? ? elements sp Hn Hsp]; subst.
        -- left. by exists id.
        -- right. by exists elements, sp.
    + split; [done|]. intros [_ H]. inversion H.
Qed.

(** X2. The scan never takes a hook for a component: every identifier it
    registers starts with an uppercase letter and is not a hook name, and
    every name of the hook-name set is a hook name and not a component
    name. *)
Theorem components_and_hooks_are_disjoint sf :
  (forall name, In name (components (scan sf)) ->
     isComponentishName (text name) = true /\ isHookName (text name) = false) /\
  (forall h, h ∈ seenHooks (scan sf) ->
     isHookName h = true /\ isComponentishName h = false).
Proof.
  split.
  - intros name H. rewrite components_scan in H.
    apply in_flat_map in H as (t & _ & H).
    apply componentsOfStatement_componentish in H. split; [done|].
    destruct (isHookName (text name)) eqn:Hh; [|done].
    apply hookName_not_componentish in Hh. congruence.
  - intros h H. apply seenHooks_scan in H.
    apply in_flat_map in H as (t & _ & H).
    apply hookNamesOfStatement_In in H as [Hh _]. split; [done|].
    by apply hookName_not_componentish.
Qed.

(** X3. The hook-name set after the scan holds exactly the hook names
    that a top-level statement binds as a function declaration, as a
    declarator of an identifier with a function-expression or
    arrow-function initializer, as the default binding of an import or as
    the local name of a named import.  A namespace import, the exported
    name of an aliased import and a declarator with any other initializer
    add nothing. *)
Theorem hook_name_set sf h :
  h ∈ seenHooks (scan sf) <->
  isHookName h = true /\ exists t, In t (statements sf) /\ BindsName (node t) h.
Proof.
  rewrite seenHooks_scan, in_flat_map. split.
  - intros (t & Ht & H). apply hookNamesOfStatement_In in H as [Hh Hb]. eauto.
  - intros (Hh & t & Ht & Hb). exists t. split; [done|].
    by apply hookNamesOfStatement_In.
Qed.

End NameProperties.

(** ** Further properties of the transform *)

Section TransformProperties.

Context {lib : TypeScript}.

(** *** Failure *)

(** X4. [transform] throws, with the [TypeError] of [node.name!.text],
    exactly on the modules that have a function declaration without a
    name whose body has a direct hook call (as
    [export default function () { useState(0) }]); on every other module
    it returns the statements of the updated file; it fails in no other
    way. *)
Theorem anonymous_signed_declaration_throws sf :
  ((exists t, In t (statements sf) /\ anonymousSigned (node t)) <->
   transform sf = Throw NameUndefined) /\
  ((forall t, In t (statements sf) -> ~ anonymousSigned (node t)) <->
   exists out, transform sf = Ok out) /\
  (forall e, transform sf = Throw e -> e = NameUndefined).
Proof.
  split; [|split].
  - split.
    + intros (t & Hin & Ha).
      destruct (transform sf) as [out|e] eqn:Ht.
      * assert (exists out, transform sf = Ok out) as Hok by eauto.
        by destruct (proj1 (transform_ok_iff sf) Hok t Hin).
      * by apply transform_throw in Ht as [-> _].
    + intros Ht. by apply transform_throw in Ht as [_ H].
  - split; [apply transform_succeeds|apply transform_ok_iff].
  - intros e Ht. by apply transform_throw in Ht as [-> _].
Qed.

(** *** Modules without hook calls *)

Lemma unsigned_statement_block sf i t :
  statements sf !! i = Some t ->
  signaturesOfStatement (node t) = [] ->
  rewriteStatement (sourceText sf) (scan sf) (mkItem (Some i) t) =
  Ok [unsignedItem i t].
Proof.
  intros Hi Hs. unfold unsignedItem.
  destruct (node t) as [fn|mods decls flags|x|c m|x|src] eqn:Hn.
  - simpl in Hs. destruct (_getHookCallsSignature fn) eqn:Hsig; [done|].
    by rewrite (rewriteStatement_function_unsigned sf i t fn) by done.
  - rewrite (rewriteStatement_variable sf i t mods decls flags) by done.
    simpl in Hs. simpl.
    rewrite (mapi_ext _ (fun _ d => (d, [])) decls 0).
    + rewrite mapi_const, map_map. simpl. rewrite map_id.
      replace (concat (map snd (map (fun d : VariableDeclaration => (d, @nil Statement)) decls)))
        with (@nil Statement); [done|].
      clear. induction decls; simpl; [done|]. by rewrite <- IHdecls.
    + intros n d Hd. simpl.
      apply (rewrittenDeclaration_unsigned sf _ i t mods decls flags); try done.
      destruct (signatureOfDeclaration d) as [sig|] eqn:Hsig; [|done].
      assert (In sig (flat_map (fun d => option_list (signatureOfDeclaration d)) decls)) as Hin.
      { apply in_flat_map. exists d. split.
        - apply list_elem_of_In. by eapply list_elem_of_lookup_2.
        - rewrite Hsig. by left. }
      by rewrite Hs in Hin.
  - rewrite rewriteStatement_other; [done|by rewrite Hn].
  - rewrite rewriteStatement_other; [done|by rewrite Hn].
  - rewrite rewriteStatement_other; [done|by rewrite Hn].
  - rewrite rewriteStatement_other; [done|by rewrite Hn].
Qed.

Lemma flat_map_nil {A B} (f : A -> list B) l :
  (forall x, In x l -> f x = []) -> flat_map f l = [].
Proof.
  induction l as [|x l IH]; intros H; simpl; [done|].
  rewrite (H x) by (by left). apply IH. intros y Hy. apply H. by right.
Qed.

Lemma concat_mapi_singletons {A B} (f : nat -> A -> B) l : forall j,
  concat (mapi (fun i x => [f i x]) j l) = mapi f j l.
Proof. induction l as [|x l IH]; intros j; simpl; [done|]. by rewrite IH. Qed.

Lemma mapi_itemsFrom ts : forall i,
  mapi (fun i t => mkItem (Some i) t) i ts = itemsFrom i ts.
Proof. induction ts as [|t ts IH]; intros i; simpl; [done|]. by rewrite IH. Qed.

(** X5. In a module in which no function has a direct hook call, no
    signature is declared and no recording statement is added: the output
    has one statement for each parsed statement, in their order, followed
    by the registration calls of the components.  A statement other than
    a variable statement is the parsed node itself; a variable statement
    is all the same replaced by a new statement, without position, that
    the factory makes of its modifiers, its declarators (the parsed ones)
    and the flags of its list.  Only a module without variable statement
    and without component comes out as its own statements. *)
Theorem module_without_hook_calls sf :
  (forall t, In t (statements sf) -> signaturesOfStatement (node t) = []) ->
  transform sf =
    Ok (mapi unsignedItem 0 (statements sf) ++
        map (fun name => synthesized (registrationCall name))
          (flat_map (fun t => componentsOfStatement (node t)) (statements sf))) /\
  (forall i t mods decls flags,
     statements sf !! i = Some t -> node t = VariableStatement mods decls flags ->
     unsignedItem i t =
       mkItem None (mkTopLevel (-1) (VariableStatement mods decls (createdListFlags flags)))) /\
  (forall i t, statements sf !! i = Some t -> isVariableStatement (node t) = false ->
     unsignedItem i t = mkItem (Some i) t) /\
  ((forall t, In t (statements sf) ->
      isVariableStatement (node t) = false /\ componentsOfStatement (node t) = []) ->
   transform sf = Ok (itemsFrom 0 (statements sf))).
Proof.
  intros H.
  assert (transform sf =
    Ok (mapi unsignedItem 0 (statements sf) ++
        map (fun name => synthesized (registrationCall name))
          (flat_map (fun t => componentsOfStatement (node t)) (statements sf)))) as Ht.
  { rewrite transform_structure.
    rewrite (mapiR_ok _ (fun i t => [unsignedItem i t])).
    - simpl. unfold signaturePrefix.
      rewrite signatures_scan, (flat_map_nil _ _ H). simpl.
      by rewrite concat_mapi_singletons, components_scan.
    - intros n t Hn. simpl. apply unsigned_statement_block; [done|].
      apply H. apply list_elem_of_In. by eapply list_elem_of_lookup_2. }
  split; [done|]. split; [|split].
  - intros i t mods decls flags _ Hn. unfold unsignedItem. by rewrite Hn.
  - intros i t _ Hv. unfold unsignedItem. by destruct (node t).
  - intros Hc. rewrite Ht, (flat_map_nil (fun t => componentsOfStatement (node t))).
    + simpl. rewrite app_nil_r, <- mapi_itemsFrom. f_equal. apply mapi_ext.
      intros n t Hn. simpl. unfold unsignedItem.
      assert (In t (statements sf)) as Hin
        by (apply list_elem_of_In; by eapply list_elem_of_lookup_2).
      destruct (Hc t Hin) as [Hv _]. by destruct (node t).
    + intros t Hin. by destruct (Hc t Hin).
Qed.

(** *** The number of statements *)

Lemma length_concat_blocks {A} (f : A -> list HookCallsSignature) ts : forall blocks,
  length blocks = length ts ->
  (forall i t, ts !! i = Some t ->
     exists (s' : Item) recs, blocks !! i = Some (s' :: recs) /\ length recs = length (f t)) ->
  length (concat blocks) = length ts + length (flat_map f ts).
Proof.
  induction ts as [|t ts IH]; intros [|b blocks] Hlen H; simpl in *; try done.
  destruct (H 0 t eq_refl) as (s' & recs & [= ->] & Hr).
  rewrite !length_app. simpl. rewrite (IH blocks).
  - lia.
  - lia.
  - intros i t' Hi. apply (H (S i) t' Hi).
Qed.

(** X6. The output of a run has one statement for each parsed statement,
    one for each signed function, one for each component, and one more
    when some function is signed. *)
Theorem output_length sf out :
  transform sf = Ok out ->
  let signed := flat_map (fun t => signaturesOfStatement (node t)) (statements sf) in
  let comps := flat_map (fun t => componentsOfStatement (node t)) (statements sf) in
  length out =
    (if Nat.ltb 0 (length signed) then 1 else 0) +
    length (statements sf) + length signed + length comps.
Proof.
  intros Ht signed comps.
  apply transform_ok_inv in Ht as (blocks & -> & Hlen & Hnth).
  rewrite !length_app, length_map, components_scan.
  rewrite (length_concat_blocks (fun t => signaturesOfStatement (node t)) (statements sf)).
  - unfold signaturePrefix. rewrite signatures_scan. fold signed comps.
    destruct (Nat.ltb 0 (length signed)); simpl; lia.
  - done.
  - intros i t Hi. destruct (Hnth i t Hi) as (b & Hb & Hr).
    destruct (block_of_statement sf i t b Hi Hr)
      as (s' & recs & -> & _ & _ & Hl & _).
    exists s', (map synthesized recs). by rewrite length_map.
Qed.

(** *** The signature identifiers *)

Lemma signatureInvariant_record sigs m k sig :
  signatureInvariant sigs m ->
  signatureInvariant (sigs ++ [createUniqueName (length sigs) "_s"])
    (<[ k := mkSignatureEntry (createUniqueName (length sigs) "_s") (key sig) (customHooks sig) ]> m).
Proof.
  intros (H1 & H2 & H3). split; [|split].
  - rewrite length_app. simpl. rewrite Nat.add_1_r, seq_S, map_app. simpl.
    by rewrite <- H1.
  - intros k' e He. rewrite length_app. simpl.
    destruct (decide (k = k')) as [<-|Hk].
    + rewrite lookup_insert_eq in He. injection He as <-.
      exists (length sigs). split; [lia|done].
    + rewrite lookup_insert_ne in He by done.
      destruct (H2 k' e He) as (n & Hn & Hid). exists n. split; [lia|done].
  - intros Hd k1 k2 e1 e2 He1 He2 Hid.
    destruct (decide (k = k1)) as [<-|Hk1], (decide (k = k2)) as [<-|Hk2]; [done|..].
    + rewrite lookup_insert_eq in He1. injection He1 as <-.
      rewrite lookup_insert_ne in He2 by done.
      destruct (H2 k2 e2 He2) as (n & Hn & Hid2). simpl in Hid.
      rewrite Hid2 in Hid. apply Hd in Hid. lia.
    + rewrite lookup_insert_eq in He2. injection He2 as <-.
      rewrite lookup_insert_ne in He1 by done.
      destruct (H2 k1 e1 He1) as (n & Hn & Hid1). simpl in Hid.
      rewrite Hid1 in Hid. apply Hd in Hid. lia.
    + rewrite lookup_insert_ne in He1, He2 by done. by apply (H3 Hd k1 k2 e1 e2).
Qed.

Lemma signatureInvariant_scanDeclaration i j d st :
  signatureInvariant (signatures st) (hookCalls st) ->
  signatureInvariant (signatures (scanDeclaration i j d st))
                     (hookCalls (scanDeclaration i j d st)).
Proof.
  intros H. rewrite scanDeclaration_unfold.
  destruct (declaredFunction d) as [[name fn]|]; [|done].
  destruct (_getHookCallsSignature fn) as [sig|],
    (isHookName (text name)), (isComponentishName (text name)); simpl;
    try done; by apply signatureInvariant_record.
Qed.

Lemma signatureInvariant_scanDeclarations i ds : forall j st,
  signatureInvariant (signatures st) (hookCalls st) ->
  signatureInvariant (signatures (scanDeclarations i j ds st))
                     (hookCalls (scanDeclarations i j ds st)).
Proof.
  induction ds as [|d ds IH]; intros j st H; simpl; [done|].
  by apply IH, signatureInvariant_scanDeclaration.
Qed.

Lemma signatureInvariant_scanStatement i t st :
  signatureInvariant (signatures st) (hookCalls st) ->
  signatureInvariant (signatures (scanStatement i t st))
                     (hookCalls (scanStatement i t st)).
Proof.
  intros H. unfold scanStatement.
  destruct (node t) as [fn|mods decls flags|e|c m|e|src]; simpl; try done.
  - unfold scanFunctionDeclaration.
    destruct (_getHookCallsSignature fn) as [sig|], (nameOf fn) as [name|]; simpl;
      try done; try (by apply signatureInvariant_record);
      destruct (isHookName (text name)), (isComponentishName (text name)); simpl;
      try done; by apply signatureInvariant_record.
  - by apply signatureInvariant_scanDeclarations.
  - by rewrite signatures_addSeenHooks, hookCalls_addSeenHooks.
Qed.

Lemma signatureInvariant_scanStatements ts : forall i st,
  signatureInvariant (signatures st) (hookCalls st) ->
  signatureInvariant (signatures (scanStatements i ts st))
                     (hookCalls (scanStatements i ts st)).
Proof.
  induction ts as [|t ts IH]; intros i st H; simpl; [done|].
  by apply IH, signatureInvariant_scanStatement.
Qed.

Lemma signatureInvariant_scan sf :
  signatureInvariant (signatures (scan sf)) (hookCalls (scan sf)).
Proof.
  apply signatureInvariant_scanStatements. simpl. split; [done|]. split.
  - intros k e He. by rewrite lookup_empty in He.
  - intros _ k k' e e' He. by rewrite lookup_empty in He.
Qed.

Lemma uniqueNames_NoDup n : forall a,
  distinctNames ->
  List.NoDup (map (fun n => createUniqueName n "_s") (seq a n)).
Proof.
  induction n as [|n IH]; intros a Hd; simpl; constructor; [|by apply IH].
  intros H. apply in_map_iff in H as (m & Hm & Hin).
  apply Hd in Hm as ->. apply in_seq in Hin. lia.
Qed.

Lemma sigId_declared sf k e :
  hookCalls (scan sf) !! k = Some e -> In (sigId e) (signatures (scan sf)).
Proof.
  destruct (signatureInvariant_scan sf) as (H1 & H2 & _).
  intros He. destruct (H2 k e He) as (n & Hn & ->).
  rewrite H1. apply (in_map (fun n => createUniqueName n "_s")). apply in_seq. lia.
Qed.

(** X7. The scan calls [f.createUniqueName('_s', ...)] once for each
    signed function, in the order in which it meets them: [signatures]
    holds what the successive calls returned, one identifier for each
    signed function, and the identifier of every entry of the map is one
    of them.  The transformer does nothing itself to keep the identifiers
    apart: when the library returns distinct names for the calls of a
    run, no identifier is declared twice and the entries of two functions
    never carry the same one. *)
Theorem signature_identifiers sf :
  signatures (scan sf) =
    map (fun n => createUniqueName n "_s")
      (seq 0 (length (flat_map (fun t => signaturesOfStatement (node t)) (statements sf)))) /\
  (forall k e, hookCalls (scan sf) !! k = Some e -> In (sigId e) (signatures (scan sf))) /\
  (distinctNames ->
   List.NoDup (signatures (scan sf)) /\
   forall k k' e e',
     hookCalls (scan sf) !! k = Some e -> hookCalls (scan sf) !! k' = Some e' ->
     sigId e = sigId e' -> k = k').
Proof.
  destruct (signatureInvariant_scan sf) as (H1 & H2 & H3).
  split; [by rewrite <- signatures_scan|]. split; [apply sigId_declared|].
  intros Hd. split; [|by apply H3].
  rewrite H1. by apply uniqueNames_NoDup.
Qed.

(** *** The blocks of the signed statements *)


Lemma length_mapi {A B} (f : nat -> A -> B) l : forall j, length (mapi f j l) = length l.
Proof. induction l as [|x l IH]; intros j; simpl; [done|]. by rewrite IH. Qed.

Lemma map_lookup_Some {A B} (f : A -> B) l : forall j x,
  l !! j = Some x -> map f l !! j = Some (f x).
Proof.
  induction l as [|y l IH]; intros [|j] x H; simpl in *; try done.
  - by injection H as ->.
  - by apply IH.
Qed.

(** X9. The block of a variable statement starts with a new statement
    that the factory makes of the modifiers of the parsed one, of one
    declarator for each of its declarators, in their order, and of the
    flags of its list, which the factory does not have to keep: a
    declarator without signature is the parsed declarator itself, a
    signed one keeps its name, exclamation token and type and gets the
    initializer whose body starts with the call of its signature
    identifier.  The recording statements, new as well, follow in the
    order of the declarators. *)
Theorem variable_statement_block sf i t mods decls flags out :
  statements sf !! i = Some t ->
  node t = VariableStatement mods decls flags ->
  transform sf = Ok out ->
  exists blocks decls' (recs : list (list Statement)),
    out = signaturePrefix (scan sf) ++ concat blocks ++
          map (fun name => synthesized (registrationCall name)) (components (scan sf)) /\
    blocks !! i = Some
      (mkItem None (mkTopLevel (-1) (VariableStatement mods decls' (createdListFlags flags))) ::
       map synthesized (concat recs)) /\
    length decls' = length decls /\
    length recs = length decls /\
    forall j d, decls !! j = Some d ->
      match signatureOfDeclaration d with
      | None => decls' !! j = Some d /\ recs !! j = Some []
      | Some sig =>
        exists name ex ty init fn stmts sigId,
          d = mkVariableDeclaration (BindingIdentifier name) ex ty (Some init) /\
          functionInitializer (Some init) = Some fn /\
          bodyOf fn = Block stmts /\
          In sigId (signatures (scan sf)) /\
          decls' !! j = Some (mkVariableDeclaration (BindingIdentifier name) ex ty
            (Some (signedInitializer sigId init stmts))) /\
          recs !! j = Some
            [ recordingStatement (text name) sigId (key sig)
                (forceResetOf (forceResetComment (sourceText sf) (pos t))
                   (resolveCustomHooks (scan sf) (customHooks sig)) (customHooks sig))
                (resolveCustomHooks (scan sf) (customHooks sig)) ]
      end.
Proof.
  intros Hi Hn Ht.
  apply transform_ok_inv in Ht as (blocks & -> & _ & Hnth).
  destruct (Hnth i t Hi) as (b & Hb & Hr).
  rewrite (rewriteStatement_variable sf i t mods decls flags Hi Hn) in Hr.
  injection Hr as <-.
  set (comment := forceResetComment (sourceText sf) (pos t)) in *.
  set (rs := mapi (rewrittenDeclaration (scan sf) comment i) 0 decls) in *.
  assert (length rs = length decls) as Hlen by apply length_mapi.
  exists blocks, (map fst rs), (map snd rs).
  split; [done|]. split; [done|]. rewrite !length_map.
  split; [done|]. split; [done|].
  intros j d Hd.
  assert (rs !! j = Some (rewrittenDeclaration (scan sf) comment i j d)) as Hrs.
  { unfold rs. by rewrite mapi_lookup, Hd. }
  assert (forall A (f : VariableDeclaration * list Statement -> A),
    map f rs !! j = Some (f (rewrittenDeclaration (scan sf) comment i j d))) as Hmap
    by (intros A f; by apply map_lookup_Some).
  destruct (signatureOfDeclaration d) as [sig|] eqn:Hsig.
  - destruct (rewrittenDeclaration_signed sf comment i t mods decls flags j d sig Hi Hn Hd Hsig)
      as (name & fn & entry & stmts & ex & ty & init & -> & _ & Hfi & Hbody & He & <- & Hrd).
    exists name, ex, ty, init, fn, stmts, (sigId entry).
    split; [done|]. split; [done|]. split; [done|]. split; [by eapply sigId_declared|].
    rewrite !Hmap, Hrd. done.
  - rewrite !Hmap.
    by rewrite (rewrittenDeclaration_unsigned sf comment i t mods decls flags j d).
Qed.

(** *** The arguments of the recording call *)

(** X10. For a signed function whose hook calls are all built-in hooks,
    the recording call has the function and the key as only arguments,
    followed by [true] when a reset comment is in front of the statement;
    it never has a fourth argument. *)
Theorem builtin_hooks_recording sf k name p sig out :
  SignedFunction sf k name p sig ->
  customHooks sig = [] ->
  transform sf = Ok out ->
  exists sigId,
    In (synthesized (ExpressionStatement (createCall (Identifier sigId)
          ([createIdentifier (text name); StringLiteral (key sig)] ++
           (if forceResetComment (sourceText sf) p
            then [TrueKeyword] else []))))) out.
Proof.
  intros Hs Hc Ht.
  destruct (recording_in_output sf k name p sig out Hs Ht) as [id Hin].
  exists id. rewrite Hc in Hin. unfold recordingStatement, forceResetOf in Hin. simpl in Hin.
  by destruct (forceResetComment (sourceText sf) p).
Qed.

(** X11. When the source text does not contain [@refresh reset] at all,
    no comment range can force a reset: the forceReset argument of a
    signed function is true exactly when one of its custom hooks is not
    in the hook-name set. *)
Theorem reset_without_marker sf k name p sig out :
  JsString.includes (sourceText sf) "@refresh reset" = false ->
  SignedFunction sf k name p sig ->
  transform sf = Ok out ->
  exists sigId forceReset,
    In (synthesized (recordingStatement (text name) sigId (key sig) forceReset
          (resolveCustomHooks (scan sf) (customHooks sig)))) out /\
    (forceReset = true <->
     exists h, In h (customHooks sig) /\ h ∉ seenHooks (scan sf)).
Proof.
  intros Hm Hs Ht.
  destruct (recording_in_output sf k name p sig out Hs Ht) as [id Hin].
  rewrite (forceResetComment_no_marker _ p Hm) in Hin.
  eexists id, _. split; [exact Hin|].
  rewrite forceResetOf_true. split; [by intros [|]|]. by right.
Qed.

End TransformProperties.

(** ** Further properties of the keys *)

Section KeyProperties.

Lemma hookCallsOfStatement_hookName s c :
  In c (hookCallsOfStatement s) -> isHookName (callName c) = true.
Proof.
  destruct s as [fn|mods decls flags|x|cl m|x|src]; simpl; try done.
  - intros H. apply in_flat_map in H as (d & _ & H).
    destruct d as [n ex ty [init|]]; [|done].
    destruct init as [| |src e args| | | | | | |]; try done. simpl in H.
    destruct (_getHookCallSignature _ e args) as [c'|] eqn:Hs; [|done].
    destruct H as [->|[]]. by apply hookCallSignature_spec in Hs as (_ & Hh & _).
  - destruct x as [| |src e args| | | | | | |]; try done. simpl. intros H.
    destruct (_getHookCallSignature _ e args) as [c'|] eqn:Hs; [|done].
    destruct H as [->|[]]. by apply hookCallSignature_spec in Hs as (_ & Hh & _).
Qed.

Lemma bodyHookCalls_hookName fn c :
  In c (bodyHookCalls fn) -> isHookName (callName c) = true.
Proof.
  unfold bodyHookCalls. destruct (bodyOf fn) as [|stmts|e]; try done.
  intros H. apply in_flat_map in H as (s & _ & H).
  by eapply hookCallsOfStatement_hookName.
Qed.

Lemma filter_map_names (P : string -> bool) (l : list HookCall) :
  map callName (List.filter (fun c => P (callName c)) l) =
  List.filter P (map callName l).
Proof.
  induction l as [|c l IH]; simpl; [done|].
  destruct (P (callName c)); simpl; by rewrite IH.
Qed.

Lemma isBuiltinHook_In h : isBuiltinHook h = true <-> In h builtinHooks.
Proof.
  unfold isBuiltinHook. rewrite existsb_exists. split.
  - intros (x & Hx & Heq). by apply String.eqb_eq in Heq as ->.
  - intros H. exists h. split; [done|]. apply String.eqb_refl.
Qed.

(** X12. The custom hooks of a signature are the names of the direct hook
    calls of the body, in call order and once for every call (a hook
    called twice is listed twice), without the calls of the built-in
    hooks; every one of them is a hook name. *)
Theorem custom_hooks_of_signature fn sig :
  _getHookCallsSignature fn = Some sig ->
  customHooks sig =
    List.filter (fun h => negb (isBuiltinHook h)) (map callName (bodyHookCalls fn)) /\
  (forall h, In h (customHooks sig) ->
     isHookName h = true /\ ~ In h builtinHooks /\
     exists c, In c (bodyHookCalls fn) /\ callName c = h).
Proof.
  intros H. unfold _getHookCallsSignature in H.
  destruct (Nat.eqb (length (bodyHookCalls fn)) 0); [done|]. injection H as <-. simpl.
  rewrite (filter_map_names (fun h => negb (isBuiltinHook h))). split; [done|].
  intros h Hh. apply filter_In in Hh as [Hin Hb].
  apply in_map_iff in Hin as (c & <- & Hc).
  split; [by eapply bodyHookCalls_hookName|]. split; [|by exists c].
  intros Hbi. apply isBuiltinHook_In in Hbi. by rewrite Hbi in Hb.
Qed.

Lemma join_cons2 sep x y l :
  JsString.join sep (x :: y :: l) = x +:+ sep +:+ JsString.join sep (y :: l).
Proof. reflexivity. Qed.

(** Lines without line break are recovered from their join. *)
Lemma join_lines_injective l1 : forall l2,
  l1 <> [] -> l2 <> [] ->
  Forall noLineBreak l1 -> Forall noLineBreak l2 ->
  JsString.join JsString.LF l1 = JsString.join JsString.LF l2 -> l1 = l2.
Proof.
  induction l1 as [|x xs IH]; intros [|y ys] H1 H2 F1 F2 H; try done.
  apply Forall_cons in F1 as [Fx F1]. apply Forall_cons in F2 as [Fy F2].
  destruct xs as [|x' xs], ys as [|y' ys].
  - simpl in H. by subst.
  - rewrite join_cons2 in H. simpl in H. subst x. by destruct (lineBreak_after_prefix _ _ Fx).
  - rewrite join_cons2 in H. simpl in H. subst y. by destruct (lineBreak_after_prefix _ _ Fy).
  - rewrite !join_cons2 in H.
    pose proof (first_line_unique _ _ _ _ Fx Fy H) as ->.
    do 2 apply app_inv_head_string in H. f_equal. by apply IH.
Qed.

(** X13. When no line of the keys contains a line break, two functions
    have the same key exactly when they have the same sequence of
    call-site lines; in particular a body with one hook call more or less
    has another key. *)
Theorem key_determines_call_lines fn fn' sig sig' :
  _getHookCallsSignature fn = Some sig ->
  _getHookCallsSignature fn' = Some sig' ->
  Forall noLineBreak (map keyLine (bodyHookCalls fn)) ->
  Forall noLineBreak (map keyLine (bodyHookCalls fn')) ->
  (key sig = key sig' <->
   map keyLine (bodyHookCalls fn) = map keyLine (bodyHookCalls fn')) /\
  (length (bodyHookCalls fn) <> length (bodyHookCalls fn') -> key sig <> key sig').
Proof.
  intros H H' F F'. unfold _getHookCallsSignature in H, H'.
  destruct (bodyHookCalls fn) as [|c l] eqn:E; [done|].
  destruct (bodyHookCalls fn') as [|c' l'] eqn:E'; [done|].
  simpl in H, H'. injection H as <-. injection H' as <-.
  assert (JsString.join JsString.LF (map keyLine (c :: l)) =
          JsString.join JsString.LF (map keyLine (c' :: l')) ->
          map keyLine (c :: l) = map keyLine (c' :: l')) as Hinj
    by (by apply join_lines_injective).
  split; [split; [exact Hinj|]|].
  - intros Heq. exact (f_equal (JsString.join JsString.LF) Heq).
  - intros Hlen Hk. apply Hinj in Hk.
    apply (f_equal (@length string)) in Hk. rewrite !length_map in Hk. done.
Qed.

Lemma appendArgument_sameSeed name args args' k :
  sameSeedText name args args' ->
  appendArgument name args k = appendArgument name args' k.
Proof.
  unfold sameSeedText, seedIndex, appendArgument, argText.
  destruct (String.eqb name "useState").
  - destruct args as [|a l], args' as [|a' l']; simpl; try done.
    by intros [= ->].
  - destruct (String.eqb name "useReducer"); simpl; [|done].
    destruct args as [|a [|b l]], args' as [|a' [|b' l']]; simpl; try done.
    by intros [= ->].
Qed.

Lemma hookCallSignature_sameSeed parent e e' name args args' :
  calleeName e = Some name -> calleeName e' = Some name ->
  sameSeedText name args args' ->
  _getHookCallSignature parent e args = _getHookCallSignature parent e' args'.
Proof.
  intros He He' Hs. unfold _getHookCallSignature. rewrite He, He'.
  by rewrite (appendArgument_sameSeed name args args').
Qed.

(** X14. The signature of a function does not change when a direct hook
    call is edited in anything but the hook name, the name of its
    declarator and the seed argument of [useState] or [useReducer]: the
    callback and the dependencies of [useEffect], the reducer of
    [useReducer], the object the hook is taken from and the type of the
    declarator do not enter the key. *)
Theorem other_arguments_keep_signature s s' head name before after :
  EditsOtherArguments s s' ->
  _getHookCallsSignature (mkFunction head name (Block (before ++ s :: after))) =
  _getHookCallsSignature (mkFunction head name (Block (before ++ s' :: after))).
Proof.
  intros He.
  assert (hookCallsOfStatement s = hookCallsOfStatement s') as Hs.
  { destruct He as [src src' e e' hook args args' H1 H2 H3
                   |mods flags bef aft nm ex ex' ty ty' src src' e e' hook args args' H1 H2 H3];
      simpl.
    - by rewrite (hookCallSignature_sameSeed _ e e' hook args args').
    - rewrite !flat_map_app. simpl.
      by rewrite (hookCallSignature_sameSeed _ e e' hook args args'). }
  unfold _getHookCallsSignature. rewrite !bodyHookCalls_block, !flat_map_app. simpl.
  by rewrite Hs.
Qed.

End KeyProperties.

(** ** The resolution of the custom hooks *)

Section Resolution.

Context {lib : TypeScript}.

Lemma customHooks_hookName fn sig h :
  _getHookCallsSignature fn = Some sig -> In h (customHooks sig) -> isHookName h = true.
Proof.
  intros H Hh. unfold _getHookCallsSignature in H.
  destruct (Nat.eqb (length (bodyHookCalls fn)) 0); [done|]. injection H as <-.
  simpl in Hh. apply in_map_iff in Hh as (c & <- & Hc).
  apply filter_In in Hc as [Hc _]. by eapply bodyHookCalls_hookName.
Qed.

Lemma signedFunction_hookName sf k name p sig h :
  SignedFunction sf k name p sig -> In h (customHooks sig) -> isHookName h = true.
Proof.
  intros [i t fn name' sig' _ _ _ Hsig|i j t mods decls flags d name' fn sig' _ _ _ _ Hsig] Hh;
    by eapply customHooks_hookName.
Qed.

(** A hook name is in the hook-name set exactly when some statement of
    the module, wherever it stands, binds it in one of the ways the scan
    looks at. *)
Lemma seenHooks_BindsName sf h :
  isHookName h = true ->
  h ∈ seenHooks (scan sf) <-> exists t, In t (statements sf) /\ BindsName (node t) h.
Proof.
  intros Hh. rewrite seenHooks_scan, in_flat_map. split.
  - intros (t & Ht & H). apply hookNamesOfStatement_In in H as [_ Hb]. eauto.
  - intros (t & Ht & Hb). exists t. split; [done|]. by apply hookNamesOfStatement_In.
Qed.

(** C2, as the code has it. A custom hook that a function calls and that
    a top-level statement of the module, also one after the function,
    binds as a function declaration of that name, as a declarator of that
    identifier with a function-expression or arrow-function initializer,
    as the default binding of an import or as the local name of a named
    import, is in the hook-name set when the custom hooks of the function
    are resolved: the set is consulted by the rewrite, after the scan of
    the whole module.  The hook is kept in the emitted customHooks list.
    The list keeps exactly the custom hooks that some statement binds in
    one of these ways, and forceReset is true only for a reset comment or
    for a custom hook that no statement of the module binds so. *)
Theorem declared_hook_is_resolved sf k name p sig h j t out :
  SignedFunction sf k name p sig ->
  In h (customHooks sig) ->
  statements sf !! j = Some t ->
  BindsName (node t) h ->
  transform sf = Ok out ->
  h ∈ seenHooks (scan sf) /\
  exists sigId emitted forceReset,
    emitted = resolveCustomHooks (scan sf) (customHooks sig) /\
    In h emitted /\
    In (synthesized (recordingStatement (text name) sigId (key sig) forceReset emitted)) out /\
    (forall h', In h' emitted <->
       In h' (customHooks sig) /\
       exists t', In t' (statements sf) /\ BindsName (node t') h') /\
    (forceReset = true <->
       forceResetComment (sourceText sf) p = true \/
       exists h', In h' (customHooks sig) /\
         forall t', In t' (statements sf) -> ~ BindsName (node t') h').
Proof.
  intros Hs Hin Hj Hb Ht.
  assert (forall h', In h' (customHooks sig) ->
            h' ∈ seenHooks (scan sf) <->
            exists t', In t' (statements sf) /\ BindsName (node t') h') as Hseen.
  { intros h' Hh'. apply seenHooks_BindsName. by eapply signedFunction_hookName. }
  assert (h ∈ seenHooks (scan sf)) as Hh.
  { apply Hseen; [done|]. exists t. split; [|done].
    apply list_elem_of_In. by eapply list_elem_of_lookup_2. }
  split; [done|].
  destruct (recording_in_output sf k name p sig out Hs Ht) as [id Hrec].
  eexists id, _, _. split; [reflexivity|]. split; [|split; [exact Hrec|split]].
  - by apply resolveCustomHooks_In.
  - intros h'. rewrite resolveCustomHooks_In. split.
    + intros [Hh' Hs']. split; [done|]. by apply Hseen.
    + intros [Hh' Hb']. split; [done|]. by apply Hseen.
  - rewrite forceResetOf_true. split; (intros [Hc|(h' & Hh' & Hn)]; [by left|right]).
    + exists h'. split; [done|]. intros t' Ht' Hb'. apply Hn. apply Hseen; eauto.
    + exists h'. split; [done|]. intros Hs'. apply Hseen in Hs' as (t' & Ht' & Hb'); [|done].
      by apply (Hn t').
Qed.

End Resolution.

(** ** The further properties on the examples *)

Section FurtherExamples.

Import Example.

#[local] Existing Instance library.

(** C2, as the code has it, on the example module. *)
Lemma declared_hook_is_resolved_example :
  "useMyHook" ∈ seenHooks (scan module) /\
  exists sigId emitted forceReset,
    emitted = resolveCustomHooks (scan module) (customHooks counterSignature) /\
    In "useMyHook" emitted /\
    In (synthesized (recordingStatement (text (parsedIdent "Counter")) sigId
          (key counterSignature) forceReset emitted)) output /\
    (forall h', In h' emitted <->
       In h' (customHooks counterSignature) /\
       exists t', In t' (statements module) /\ BindsName (node t') h') /\
    (forceReset = true <->
       forceResetComment (sourceText module) 0 = true \/
       exists h', In h' (customHooks counterSignature) /\
         forall t', In t' (statements module) -> ~ BindsName (node t') h').
Proof.
  apply (declared_hook_is_resolved module (FunctionKey 0) (parsedIdent "Counter")
           0 counterSignature "useMyHook" 1
           (mkTopLevel (Z.of_nat (String.length counterText)) useMyHook) output).
  - apply counter_is_signed. reflexivity.
  - simpl. auto.
  - reflexivity.
  - exact (BindsFunction
             (mkFunction noHead (Some (parsedIdent "useMyHook"))
                (Block [ReturnStatement (OtherExpression "1")]))
             (parsedIdent "useMyHook") eq_refl).
  - vm_compute. reflexivity.
Defined.

(** A hook name bound to a call, as in [const useMyHook = makeHook()], is
    not bound in one of the ways the scan looks at: it is not in the
    hook-name set, and the recording call of [Counter] leaves it out and
    passes [true]. *)
Lemma hook_bound_by_call_example :
  ("useMyHook" ∉ seenHooks (scan byCallModule)) /\
  (forall t, In t (statements byCallModule) -> ~ BindsName (node t) "useMyHook") /\
  exists out,
    transform byCallModule = Ok out /\
    In (synthesized (recordingStatement "Counter" s0 counterKey true [])) out.
Proof.
  assert ("useMyHook" ∉ seenHooks (scan byCallModule)) as Hn
    by (rewrite seenHooks_scan; vm_compute; tauto).
  split; [done|]. split.
  - intros t Ht Hb. apply Hn. apply seenHooks_BindsName; [reflexivity|eauto].
  - eexists. split; [vm_compute; reflexivity|]. right. right. by left.
Qed.

(** X1 on [useState]. *)
Lemma isHookName_example : isHookName "useState" = true.
Proof.
  apply (proj2 (isHookName_spec "useState")).
  exists "S"%char, "tate". split; [reflexivity|]. vm_compute. lia.
Defined.

(** X2 on the example module. *)
Lemma components_and_hooks_example :
  isComponentishName (text (parsedIdent "Counter")) = true /\
  isHookName (text (parsedIdent "Counter")) = false.
Proof.
  apply (proj1 (components_and_hooks_are_disjoint module) (parsedIdent "Counter")).
  vm_compute. auto.
Defined.

(** X3 on the example module. *)
Lemma hook_name_set_example : "useMyHook" ∈ seenHooks (scan module).
Proof.
  apply (proj2 (hook_name_set module "useMyHook")).
  split; [reflexivity|].
  exists (mkTopLevel (Z.of_nat (String.length counterText)) useMyHook).
  split; [right; left; reflexivity|].
  exact (BindsFunction
           (mkFunction noHead (Some (parsedIdent "useMyHook"))
              (Block [ReturnStatement (OtherExpression "1")]))
           (parsedIdent "useMyHook") eq_refl).
Defined.

(** X4 on [export default function(){ ... }]. *)
Lemma anonymous_declaration_example :
  transform anonymousModule = Throw NameUndefined.
Proof.
  apply (proj1 (proj1 (anonymous_signed_declaration_throws anonymousModule))).
  exists (mkTopLevel 0 (FunctionDeclaration anonymousFunction)).
  split; [left; reflexivity|].
  exists anonymousFunction, counterSignature. repeat split.
Defined.

(** X5 on a module without hook calls: [const x = 1] is created anew. *)
Lemma module_without_hook_calls_example :
  transform plainModule =
    Ok (mapi unsignedItem 0 (statements plainModule) ++
        map (fun name => synthesized (registrationCall name))
          (flat_map (fun t => componentsOfStatement (node t)) (statements plainModule))) /\
  mapi unsignedItem 0 (statements plainModule) = plainOutput.
Proof.
  split; [|reflexivity].
  apply (proj1 (module_without_hook_calls plainModule
                  ltac:(intros t [<-|[<-|[]]]; reflexivity))).
Defined.

(** X6 on the example module. *)
Lemma output_length_example :
  let signed := flat_map (fun t => signaturesOfStatement (node t)) (statements module) in
  let comps := flat_map (fun t => componentsOfStatement (node t)) (statements module) in
  length output =
    (if Nat.ltb 0 (length signed) then 1 else 0) +
    length (statements module) + length signed + length comps.
Proof.
  apply (output_length module output). vm_compute. reflexivity.
Defined.

(** X7 on the example module, with a library that numbers its names. *)
Lemma signature_identifiers_example :
  distinctNames /\
  List.NoDup (signatures (scan module)) /\
  In (sigId (mkSignatureEntry s0 counterKey ["useMyHook"])) (signatures (scan module)).
Proof.
  assert (distinctNames (lib := library)) as Hd by (intros n n' H; by injection H).
  split; [exact Hd|]. split.
  - apply (proj1 (proj2 (proj2 (signature_identifiers module)) Hd)).
  - apply (proj1 (proj2 (signature_identifiers module)) (FunctionKey 0)).
    vm_compute. reflexivity.
Defined.


(** X9 on [const App = () => { ... }, x = 1]. *)
Lemma variable_statement_block_example :
  exists blocks decls' (recs : list (list Statement)),
    appOutput = signaturePrefix (scan appModule) ++ concat blocks ++
                map (fun name => synthesized (registrationCall name))
                  (components (scan appModule)) /\
    blocks !! 0 = Some
      (mkItem None (mkTopLevel (-1)
         (VariableStatement [] decls' (createdListFlags NodeFlags_Const))) ::
       map synthesized (concat recs)) /\
    length decls' = length [appDeclarator; xDeclarator] /\
    length recs = length [appDeclarator; xDeclarator] /\
    forall j d, [appDeclarator; xDeclarator] !! j = Some d ->
      match signatureOfDeclaration d with
      | None => decls' !! j = Some d /\ recs !! j = Some []
      | Some sig =>
        exists name ex ty init fn stmts sigId,
          d = mkVariableDeclaration (BindingIdentifier name) ex ty (Some init) /\
          functionInitializer (Some init) = Some fn /\
          bodyOf fn = Block stmts /\
          In sigId (signatures (scan appModule)) /\
          decls' !! j = Some (mkVariableDeclaration (BindingIdentifier name) ex ty
            (Some (signedInitializer sigId init stmts))) /\
          recs !! j = Some
            [ recordingStatement (text name) sigId (key sig)
                (forceResetOf
                   (forceResetComment (sourceText appModule) (pos (mkTopLevel 0 appStatement)))
                   (resolveCustomHooks (scan appModule) (customHooks sig)) (customHooks sig))
                (resolveCustomHooks (scan appModule) (customHooks sig)) ]
      end.
Proof.
  apply (variable_statement_block appModule 0 (mkTopLevel 0 appStatement)
           [] [appDeclarator; xDeclarator] NodeFlags_Const appOutput); reflexivity.
Defined.

Lemma app_is_signed :
  SignedFunction appModule (InitializerKey 0 0) (parsedIdent "App") 0 appSignature.
Proof.
  apply (SignedInitializer appModule 0 0 (mkTopLevel 0 appStatement) []
           [appDeclarator; xDeclarator] NodeFlags_Const appDeclarator
           (parsedIdent "App") appFunction appSignature); reflexivity.
Qed.

(** X10 on [App], whose only hook call is [useState]. *)
Lemma builtin_hooks_recording_example :
  exists sigId,
    In (synthesized (ExpressionStatement (createCall (Identifier sigId)
          ([createIdentifier (text (parsedIdent "App")); StringLiteral (key appSignature)] ++
           (if forceResetComment (sourceText appModule) 0
            then [TrueKeyword] else []))))) appOutput.
Proof.
  apply (builtin_hooks_recording appModule (InitializerKey 0 0)
           (parsedIdent "App") 0 appSignature appOutput).
  - apply app_is_signed.
  - reflexivity.
  - vm_compute. reflexivity.
Defined.

(** X11 on the example module, whose text has no marker, with a library
    that reports a comment range all the same. *)
Lemma reset_without_marker_example :
  exists sigId forceReset,
    In (synthesized (recordingStatement (text (parsedIdent "Counter")) sigId
          (key counterSignature) forceReset
          (resolveCustomHooks (scan (lib := resetLibrary) module)
             (customHooks counterSignature)))) (output (lib := resetLibrary)) /\
    (forceReset = true <->
     exists h, In h (customHooks counterSignature) /\
               h ∉ seenHooks (scan (lib := resetLibrary) module)).
Proof.
  apply (reset_without_marker (lib := resetLibrary) module (FunctionKey 0)
           (parsedIdent "Counter") 0 counterSignature (output (lib := resetLibrary))).
  - vm_compute. reflexivity.
  - apply counter_is_signed. reflexivity.
  - vm_compute. reflexivity.
Defined.

(** X12 on [Counter]. *)
Lemma custom_hooks_of_signature_example :
  customHooks counterSignature =
    List.filter (fun h => negb (isBuiltinHook h)) (map callName (bodyHookCalls counterFunction)) /\
  (forall h, In h (customHooks counterSignature) ->
     isHookName h = true /\ ~ In h builtinHooks /\
     exists c, In c (bodyHookCalls counterFunction) /\ callName c = h).
Proof.
  apply (custom_hooks_of_signature counterFunction counterSignature). reflexivity.
Defined.

(** X13 on [Counter] and [App]: one hook call less. *)
Lemma key_determines_call_lines_example :
  (key counterSignature = key appSignature <->
   map keyLine (bodyHookCalls counterFunction) = map keyLine (bodyHookCalls appFunction)) /\
  (length (bodyHookCalls counterFunction) <> length (bodyHookCalls appFunction) ->
   key counterSignature <> key appSignature).
Proof.
  apply (key_determines_call_lines counterFunction appFunction counterSignature appSignature).
  - reflexivity.
  - reflexivity.
  - repeat constructor.
  - repeat constructor.
Defined.

(** X14 on [useEffect(f)] edited to [useEffect(g)]. *)
Lemma other_arguments_keep_signature_example :
  _getHookCallsSignature
    (mkFunction noHead (Some (parsedIdent "Effects")) (Block ([] ++ effectF :: [effectG]))) =
  _getHookCallsSignature
    (mkFunction noHead (Some (parsedIdent "Effects")) (Block ([] ++ effectG :: [effectG]))).
Proof.
  apply (other_arguments_keep_signature effectF effectG noHead
           (Some (parsedIdent "Effects")) [] [effectG]).
  apply (EditsExpressionArguments "useEffect(f)" "useEffect(g)"
           (createIdentifier "useEffect") (createIdentifier "useEffect") "useEffect"
           [OtherExpression "f"] [OtherExpression "g"]); reflexivity.
Defined.

End FurtherExamples.
